(** * WebXenon: the crawl frontier, the claim step and the page store

    A shallow embedding of the three revisions of the [WebCrawler] class that
    the repository holds, and of its entry point:

    - [WebCrawler] : src/WebCrawler.ts      (the constructor, [start],
                                            [queueUrls], [getNextUrl],
                                            [markUrlAsCrawled], [crawl]);
    - [Part001]    : src/unnamed/part_001   (the constructor, [dequeueUrls],
                                            [dequeueUrl], [start],
                                            [processPage], [createTables],
                                            [queueUrls]);
    - [Part002]    : src/unnamed/part_002   (the constructor, [start],
                                            [processPage], [createTables],
                                            [queueUrls]);
    - [Shutdown]   : [stop] of part_001 and part_002;
    - [Index]      : src/unnamed/part_000   ([main]).

    The relational engine is an external collaborator of the program.  It is
    modelled at the level of the logical schema: a table is the list of its
    rows in insertion order together with its AUTO_INCREMENT counter, the
    UNIQUE KEY on the url column is string equality, and every statement the
    program sends is one function on tables.  Column widths, collations and
    the counter values an engine burns on a rejected INSERT are not part of
    the model: the program only ever observes the relative order of the ids
    of stored rows.

    The parser is an external collaborator too: a response carries what the
    callback reads off the parsed page (the text of the title selector, the
    content of the description selector, the href of every anchor in
    document order, the markup).

    An [async] method is a computation in the monad [M]: a function from the
    world (both tables, the log, the number of [done()] calls and the fetches
    handed to the crawler) to a result and the world after.  A rejected
    promise is [Throw].  Where two invocations of a method overlap, they are
    interleaved at their [await]s (see [Part001.step]).

    A call that the source does not [await] creates a promise whose
    statements are sent after the caller has gone on.  In [processPage] the
    caller goes on without any further [await], so the promise runs after
    the callback has ended ([settle]).  In [crawl] of src/WebCrawler.ts the
    caller goes on to statements of its own on other connections, and the
    engine may take these and those of the promises in any order: [crawl]
    is the run in which each promise has settled where it was created
    ([spawn]), and nothing that depends on that order is stated of it.

    Two readings of the program are left to where the model follows them.
    src/WebCrawler.ts writes the urls of [queueUrls] into the text of the
    statement, between double quotes: the model reads the statement for
    urls without double quote or backslash ([WebCrawler.sql_plain]), whose
    literal denotes the url itself.  And it writes the target into the text
    of a selector, [a[href^=...]]: the model reads the selector as the
    prefix test it is meant to be, which is for the selector engine to
    decide.  The statements about src/WebCrawler.ts say where they rest on
    either. *)

From Stdlib Require Import ZArith String List Bool Lia DecimalString.
From stdpp Require Import base option list strings gmap.
Import ListNotations.

Local Open Scope string_scope.
Local Open Scope list_scope.
Local Open Scope Z_scope.

(** ** JavaScript values *)

Module Js.

(** The values that flow through the modelled code.  [JObject] stands for
    any value that is not a primitive (a row object, an array, a
    function). *)
Inductive Value :=
| JUndefined
| JNull
| JBool (b : bool)
| JNum (n : Z)
| JStr (s : string)
| JObject.

#[global] Instance Value_eq_dec : EqDecision Value.
Proof. solve_decision. Defined.

(** [if (v)], [v && ...] *)
Definition truthy (v : Value) : bool :=
  match v with
  | JUndefined | JNull => false
  | JBool b => b
  | JNum n => negb (Z.eqb n 0)
  | JStr s => negb (String.eqb s "")
  | JObject => true
  end.

(** [typeof v === "string"] *)
Definition is_string (v : Value) : bool :=
  match v with JStr _ => true | _ => false end.

(** The names an object inherits from [Object.prototype] (ECMAScript
    2023, with the legacy accessors of its annex B).  Each names a
    function, but [__proto__], which names the prototype: an object in
    either case. *)
Definition object_prototype_members : list string :=
  ["constructor"; "hasOwnProperty"; "isPrototypeOf";
   "propertyIsEnumerable"; "toLocaleString"; "toString"; "valueOf";
   "__proto__"; "__defineGetter__"; "__defineSetter__";
   "__lookupGetter__"; "__lookupSetter__"].

(** The names an array inherits from [Array.prototype] (ECMAScript 2023),
    each a function; [length] is a property of the array itself. *)
Definition array_prototype_members : list string :=
  ["at"; "concat"; "copyWithin"; "entries"; "every"; "fill"; "filter";
   "find"; "findIndex"; "findLast"; "findLastIndex"; "flat"; "flatMap";
   "forEach"; "includes"; "indexOf"; "join"; "keys"; "lastIndexOf"; "map";
   "pop"; "push"; "reduce"; "reduceRight"; "reverse"; "shift"; "slice";
   "some"; "sort"; "splice"; "toReversed"; "toSorted"; "toSpliced";
   "unshift"; "values"; "with"].

Definition inherited (members : list string) (k : string) : bool :=
  existsb (String.eqb k) members.

(** [o[k]] on a row object: a property of its own, else a member it
    inherits, else [undefined]. *)
Definition get (o : gmap string Value) (k : string) : Value :=
  match o !! k with
  | Some v => v
  | None =>
      if inherited object_prototype_members k then JObject else JUndefined
  end.

(** A property name that is a canonical array index. *)
Definition index_of_string (k : string) : option nat :=
  match NilEmpty.uint_of_string k with
  | Some d =>
      if String.eqb (NilZero.string_of_uint (Nat.to_uint (Nat.of_uint d))) k
      then Some (Nat.of_uint d) else None
  | None => None
  end.

(** [a[k]] on an array of row objects, [k] a string: [length], an
    index, else a member the array inherits, else [undefined]. *)
Definition array_get (a : list (gmap string Value)) (k : string) : Value :=
  if String.eqb k "length" then JNum (Z.of_nat (length a))
  else match index_of_string k with
       | Some i => match a !! i with Some _ => JObject | None => JUndefined end
       | None =>
           if inherited (array_prototype_members ++ object_prototype_members) k
           then JObject else JUndefined
       end.

(** The names under which an array may hold something: [length], an
    index, a member it inherits. *)
Definition array_key (k : string) : bool :=
  String.eqb k "length"
  || match index_of_string k with Some _ => true | None => false end
  || inherited (array_prototype_members ++ object_prototype_members) k.

(** [s.startsWith(p)] *)
Definition startsWith (s p : string) : bool := String.prefix p s.

End Js.

(** ** The storage engine, at the level of the logical schema *)

Module Sql.

Inductive Error :=
| ER_DUP_ENTRY
| ER_BAD_NULL_ERROR
| ER_PARSE_ERROR.

Inductive Result (A : Type) :=
| Ok (a : A)
| Err (e : Error).
Arguments Ok {A} a.
Arguments Err {A} e.

Record Table (R : Type) := mkTable {
  rows : list R;
  auto_increment : Z
}.
Arguments mkTable {R} rows auto_increment.
Arguments rows {R} _.
Arguments auto_increment {R} _.

(** [CREATE TABLE IF NOT EXISTS] on a fresh database. *)
Definition empty {R : Type} : Table R := mkTable [] 1.

(** *** pages(id, url UNIQUE, title, description, raw_html) *)

Record PageRow := mkPage {
  p_id : Z;
  p_url : string;
  p_title : string;
  p_description : option string;
  p_raw_html : string
}.

Definition page_has_url (u : string) (r : PageRow) : bool :=
  String.eqb (p_url r) u.

(** [SELECT * FROM pages WHERE url = ?] *)
Definition select_page (u : string) (t : Table PageRow) : list PageRow :=
  List.filter (page_has_url u) (rows t).

Definition set_page_fields (title : string) (description : option string)
    (raw_html : string) (r : PageRow) : PageRow :=
  mkPage (p_id r) (p_url r) title description raw_html.

(** [UPDATE pages SET title = ?, description = ?, raw_html = ? WHERE url = ?] *)
Definition update_page (title : string) (description : option string)
    (raw_html u : string) (t : Table PageRow) : Table PageRow :=
  mkTable
    (map (fun r => if page_has_url u r
                   then set_page_fields title description raw_html r
                   else r) (rows t))
    (auto_increment t).

(** [INSERT INTO pages (url, title, description, raw_html) VALUES (?, ?, ?, ?)] *)
Definition insert_page (u title : string) (description : option string)
    (raw_html : string) (t : Table PageRow) : Result (Table PageRow) :=
  if existsb (page_has_url u) (rows t) then Err ER_DUP_ENTRY
  else Ok (mkTable
             (rows t ++ [mkPage (auto_increment t) u title description raw_html])
             (auto_increment t + 1)).

(** [INSERT INTO pages ... VALUES (?, ?, ?, ?)
     ON DUPLICATE KEY UPDATE title = ?, description = ?, raw_html = ?] *)
Definition insert_page_on_duplicate_key_update (u title : string)
    (description : option string) (raw_html : string)
    (t : Table PageRow) : Table PageRow :=
  match insert_page u title description raw_html t with
  | Ok t' => t'
  | Err _ => update_page title description raw_html u t
  end.

(** *** queue(id, url UNIQUE, is_crawled, ...)

    The revisions differ in the columns beside these three: part_001 has
    a [depth] column, the other two have none.  [X] is the type of the
    further columns. *)

Record QueueRow (X : Type) := mkQueue {
  q_id : Z;
  q_url : string;
  q_is_crawled : bool;
  q_cols : X
}.
Arguments mkQueue {X} q_id q_url q_is_crawled q_cols.
Arguments q_id {X} _.
Arguments q_url {X} _.
Arguments q_is_crawled {X} _.
Arguments q_cols {X} _.

Section Queue.
Context {X : Type}.

Definition queue_has_url (u : string) (r : QueueRow X) : bool :=
  String.eqb (q_url r) u.

(** [SELECT * FROM queue WHERE url = ?] *)
Definition select_queue (u : string) (t : Table (QueueRow X))
    : list (QueueRow X) :=
  List.filter (queue_has_url u) (rows t).

(** [INSERT INTO queue (url, ...) VALUES (?, ...)]; [is_crawled] takes
    its default, false.  The result carries the [insertId]. *)
Definition insert_queue (u : string) (x : X) (t : Table (QueueRow X))
    : Result (Z * Table (QueueRow X)) :=
  if existsb (queue_has_url u) (rows t) then Err ER_DUP_ENTRY
  else Ok (auto_increment t,
           mkTable (rows t ++ [mkQueue (auto_increment t) u false x])
                   (auto_increment t + 1)).

(** [INSERT IGNORE INTO queue (url, is_crawled) VALUES (u, false)] *)
Definition insert_ignore_queue (u : string) (x : X)
    (t : Table (QueueRow X)) : Table (QueueRow X) :=
  match insert_queue u x t with
  | Ok (_, t') => t'
  | Err _ => t
  end.

(** The same statement with several value tuples: the tuples are
    inserted in order, each one ignored if its url is taken. *)
Definition insert_ignore_queue_all (x : X) (urls : list string)
    (t : Table (QueueRow X)) : Table (QueueRow X) :=
  fold_left (fun t url => insert_ignore_queue url x t) urls t.

Definition set_crawled (r : QueueRow X) : QueueRow X :=
  mkQueue (q_id r) (q_url r) true (q_cols r).

(** [UPDATE queue SET is_crawled = 1 WHERE url = ?] *)
Definition mark_crawled_by_url (u : string) (t : Table (QueueRow X))
    : Table (QueueRow X) :=
  mkTable (map (fun r => if queue_has_url u r then set_crawled r else r)
               (rows t))
          (auto_increment t).

(** [UPDATE queue SET is_crawled = 1 WHERE id IN (?)]; the bound value
    is the JavaScript array of the selected ids. *)
Definition id_in (ids : list Js.Value) (r : QueueRow X) : bool :=
  bool_decide (Js.JNum (q_id r) ∈ ids).

Definition mark_crawled_by_ids (ids : list Js.Value)
    (t : Table (QueueRow X)) : Table (QueueRow X) :=
  mkTable (map (fun r => if id_in ids r then set_crawled r else r)
               (rows t))
          (auto_increment t).

(** The UNIQUE KEY on url, the PRIMARY KEY on id, and ids below the
    counter. *)
Definition queue_wf (t : Table (QueueRow X)) : Prop :=
  NoDup (map q_url (rows t))
  /\ NoDup (map q_id (rows t))
  /\ Forall (fun r => q_id r < auto_increment t) (rows t).

(** How many rows the table holds for a URL. *)
Definition count_url (u : string) (t : Table (QueueRow X)) : nat :=
  length (select_queue u t).

(** What may happen to a stored row: nothing, or its flag is raised. *)
Definition row_evolves (r r' : QueueRow X) : Prop :=
  q_id r' = q_id r /\ q_url r' = q_url r /\ q_cols r' = q_cols r
  /\ (q_is_crawled r = true -> q_is_crawled r' = true).

(** [t'] keeps every row of [t], in place and with id, url and further
    columns unchanged, and may have new rows behind them. *)
Definition queue_evolves (t t' : Table (QueueRow X)) : Prop :=
  exists kept added,
    rows t' = kept ++ added /\ Forall2 row_evolves (rows t) kept.
End Queue.

Definition page_wf (t : Table PageRow) : Prop :=
  NoDup (map p_url (rows t)).

End Sql.

(** ** Asynchronous methods: state and exceptions *)

Module Async.

Inductive Exn :=
| SqlExn (e : Sql.Error)
| JsExn (msg : string).

Inductive Res (A : Type) :=
| Ret (a : A)
| Throw (e : Exn).
Arguments Ret {A} a.
Arguments Throw {A} e.

Definition M (S A : Type) : Type := S -> Res A * S.

Section Monad.
Context {S : Type}.

Definition ret {A} (a : A) : M S A := fun s => (Ret a, s).

Definition throw {A} (e : Exn) : M S A := fun s => (Throw e, s).

Definition bind {A B} (m : M S A) (k : A -> M S B) : M S B :=
  fun s => match m s with
           | (Ret a, s') => k a s'
           | (Throw e, s') => (Throw e, s')
           end.

Definition gets {A} (f : S -> A) : M S A := fun s => (Ret (f s), s).

Definition modify (f : S -> S) : M S unit := fun s => (Ret tt, f s).

(** [try { m } catch (e) { h e }] *)
Definition try_catch {A} (m : M S A) (h : Exn -> M S A) : M S A :=
  fun s => match m s with
           | (Ret a, s') => (Ret a, s')
           | (Throw e, s') => h e s'
           end.

(** [try { m } finally { f }] *)
Definition try_finally {A} (m : M S A) (f : M S unit) : M S A :=
  fun s => match m s with
           | (r, s') => match f s' with
                        | (Ret _, s'') => (r, s'')
                        | (Throw e, s'') => (Throw e, s'')
                        end
           end.

(** [for (const x of xs) { body x }] *)
Fixpoint for_each {A} (xs : list A) (body : A -> M S unit) : M S unit :=
  match xs with
  | [] => ret tt
  | x :: xs' => bind (body x) (fun _ => for_each xs' body)
  end.
End Monad.

Module Notations.
Notation "x <- m ;; k" := (bind m (fun x => k))
  (at level 100, m at next level, right associativity).
Notation "m ;; k" := (bind m (fun _ => k))
  (at level 100, right associativity).
End Notations.

End Async.

Import Async.Notations.

(** ** The world an async method runs in *)

(** What the program writes: the stream, and the fixed part of the
    message.  [ConsoleRows] is the [console.error(rows)] of [dequeueUrl];
    [UnhandledRejection] stands for the rejection of a promise nobody
    awaits. *)
Inductive LogEntry :=
| ConsoleLog (msg : string)
| ConsoleError (msg : string)
| ConsoleRows (rows : list (gmap string Js.Value))
| LoggerInfo (msg : string)
| LoggerError (msg : string)
| UnhandledRejection (e : Async.Exn).

Record World (X : Type) := mkWorld {
  pages : Sql.Table Sql.PageRow;
  queue : Sql.Table (Sql.QueueRow X);
  log : list LogEntry;
  done_calls : nat;
  crawler_queue : list Js.Value
}.
Arguments mkWorld {X} pages queue log done_calls crawler_queue.
Arguments pages {X} _.
Arguments queue {X} _.
Arguments log {X} _.
Arguments done_calls {X} _.
Arguments crawler_queue {X} _.

Section WorldOps.
Context {X : Type}.
Local Abbreviation W := (World X).

Definition with_pages (f : Sql.Table Sql.PageRow -> Sql.Table Sql.PageRow)
    (w : W) : W :=
  mkWorld (f (pages w)) (queue w) (log w) (done_calls w) (crawler_queue w).

Definition with_queue
    (f : Sql.Table (Sql.QueueRow X) -> Sql.Table (Sql.QueueRow X))
    (w : W) : W :=
  mkWorld (pages w) (f (queue w)) (log w) (done_calls w) (crawler_queue w).

(** [console.log], [console.error], [this.logger.info], [this.logger.error] *)
Definition emit (e : LogEntry) : Async.M W unit :=
  Async.modify (fun w =>
    mkWorld (pages w) (queue w) (log w ++ [e]) (done_calls w)
            (crawler_queue w)).

(** [done()] *)
Definition done : Async.M W unit :=
  Async.modify (fun w =>
    mkWorld (pages w) (queue w) (log w) (S (done_calls w))
            (crawler_queue w)).

(** [crawler.queue(v)] *)
Definition crawler_enqueue (v : Js.Value) : Async.M W unit :=
  Async.modify (fun w =>
    mkWorld (pages w) (queue w) (log w) (done_calls w)
            (crawler_queue w ++ [v])).

(** A statement that cannot be rejected in the model. *)
Definition exec_queue
    (f : Sql.Table (Sql.QueueRow X) -> Sql.Table (Sql.QueueRow X))
    : Async.M W unit :=
  Async.modify (with_queue f).

Definition exec_pages
    (f : Sql.Table Sql.PageRow -> Sql.Table Sql.PageRow) : Async.M W unit :=
  Async.modify (with_pages f).

(** A statement that the engine may reject: the promise of
    [connection.query] is then rejected with the engine's error. *)
Definition try_pages
    (f : Sql.Table Sql.PageRow -> Sql.Result (Sql.Table Sql.PageRow))
    : Async.M W unit :=
  fun w => match f (pages w) with
           | Sql.Ok t => (Async.Ret tt, with_pages (fun _ => t) w)
           | Sql.Err e => (Async.Throw (Async.SqlExn e), w)
           end.

Definition try_queue {A : Type}
    (f : Sql.Table (Sql.QueueRow X)
         -> Sql.Result (A * Sql.Table (Sql.QueueRow X)))
    : Async.M W A :=
  fun w => match f (queue w) with
           | Sql.Ok (a, t) => (Async.Ret a, with_queue (fun _ => t) w)
           | Sql.Err e => (Async.Throw (Async.SqlExn e), w)
           end.

(** [connection.rollback()]: both tables return to what they were at
    [beginTransaction]. *)
Definition rollback (snapshot : W) : Async.M W unit :=
  Async.modify (fun w =>
    mkWorld (pages snapshot) (queue snapshot) (log w) (done_calls w)
            (crawler_queue w)).

(** [try { await beginTransaction(); body; await commit() }
     catch (error) { await rollback(); throw error }] *)
Definition transaction {A : Type} (body : Async.M W A) : Async.M W A :=
  fun w => Async.try_catch body
             (fun e => Async.bind (rollback w) (fun _ => Async.throw e)) w.

(** A promise that nobody awaits, run to its end: its effects take
    place, and a rejection is nobody's exception. *)
Definition spawn (m : Async.M W unit) : Async.M W unit :=
  Async.try_catch m (fun e => emit (UnhandledRejection e)).

(** The promises a method has created without awaiting them run on once
    the method has come to its end, in the order of their creation. *)
Definition settle (pending : list (Async.M W unit)) : Async.M W unit :=
  Async.for_each pending spawn.

(** [CREATE TABLE IF NOT EXISTS ...] on a database that holds the table:
    the statement does nothing.  In the model both tables are always
    there ([Sql.empty] is a table just created); what an engine makes of
    the statement where the table is missing is not part of it. *)
Definition create_table_if_not_exists : Async.M W unit := Async.ret tt.
End WorldOps.

(** [$("a").map((i, el) => $(el).attr("href")).get()]: cheerio's [map] drops
    the anchors whose callback yields [undefined], those without an href. *)
Definition hrefs (anchors : list (option string)) : list string :=
  omap id anchors.

(** [.filter((link) => link && link.startsWith(this.targetUrl))] *)
Definition in_scope (target : string) (link : string) : bool :=
  Js.truthy (Js.JStr link) && Js.startsWith link target.

Definition extract_links (target : string) (anchors : list (option string))
    : list string :=
  List.filter (in_scope target) (hrefs anchors).

(** [v || d] in a constructor, for an option that is a number and for one
    that is a string.  [None] is [undefined]; a number that is NaN behaves
    like [undefined] here, being falsy as well. *)
Definition number_or (v : option Z) (d : Z) : Z :=
  match v with
  | Some n => if Js.truthy (Js.JNum n) then n else d
  | None => d
  end.

Definition string_or (v : option string) (d : string) : string :=
  match v with
  | Some s => if Js.truthy (Js.JStr s) then s else d
  | None => d
  end.

(** ** src/unnamed/part_001 *)

Module Part001.
Import Async.

Record Config := mkConfig {
  targetUrl : string;
  maxDepth : Z;
  urlColumnName : string
}.

(** queue(id, url, depth, is_crawled): the further column is [depth]. *)
Definition depth (r : Sql.QueueRow Z) : Z := Sql.q_cols r.

(** What the callback reads off [res]: [res.options.uri],
    [res.options.depth], [$(this.titleSelector).text().trim()],
    [$(this.descriptionSelector).attr("content")?.trim()], the href
    attribute of every [a] element in document order, and [$.html()]. *)
Record Response := mkResponse {
  uri : string;
  res_depth : Z;
  title : string;
  description : option string;
  anchors : list (option string);
  html : string
}.

(** [WHERE is_crawled = 0 AND depth <= ?] *)
Definition eligible (max_depth : Z) (r : Sql.QueueRow Z) : bool :=
  negb (Sql.q_is_crawled r) && (depth r <=? max_depth).

(** [ORDER BY depth ASC, id ASC] *)
Definition row_leb (a b : Sql.QueueRow Z) : bool :=
  (depth a <? depth b)
  || ((depth a =? depth b) && (Sql.q_id a <=? Sql.q_id b)).

Fixpoint insert_sorted (r : Sql.QueueRow Z) (l : list (Sql.QueueRow Z))
    : list (Sql.QueueRow Z) :=
  match l with
  | [] => [r]
  | h :: t => if row_leb r h then r :: l else h :: insert_sorted r t
  end.

Definition order_by_depth_id (l : list (Sql.QueueRow Z))
    : list (Sql.QueueRow Z) :=
  fold_right insert_sorted [] l.

(** The rows the SELECT of [dequeueUrl] picks, before the projection. *)
Definition next_rows (max_depth : Z) (limit : nat)
    (t : Sql.Table (Sql.QueueRow Z)) : list (Sql.QueueRow Z) :=
  take limit (order_by_depth_id (List.filter (eligible max_depth) (Sql.rows t))).

(** [SELECT id FROM queue WHERE is_crawled = 0 AND depth <= ?
     ORDER BY depth ASC, id ASC LIMIT ?]: the driver hands back one object
    per row, with the selected column [id] and nothing else. *)
Definition select_next_ids (max_depth : Z) (limit : nat)
    (t : Sql.Table (Sql.QueueRow Z)) : list (gmap string Js.Value) :=
  map (fun r => {[ "id" := Js.JNum (Sql.q_id r) ]})
      (next_rows max_depth limit t).

(** The names under which a row object of that SELECT holds something:
    [id], and the members every object inherits. *)
Definition row_key (k : string) : bool :=
  String.eqb k "id" || Js.inherited Js.object_prototype_members k.

(** [rows[0][k]] *)
Definition first_row_get (rows : list (gmap string Js.Value)) (k : string)
    : Js.Value :=
  match rows with
  | r :: _ => Js.get r k
  | [] => Js.JUndefined
  end.

Definition dequeueUrl (cfg : Config) : M (World Z) Js.Value :=
  try_catch
    (rows <- gets (fun w => select_next_ids (maxDepth cfg) 1 (queue w)) ;;
     let ids := map (fun row => Js.get row "id") rows in
     emit (ConsoleRows rows) ;;
     if Nat.eqb (length ids) 0 then ret Js.JUndefined
     else
       exec_queue (Sql.mark_crawled_by_ids ids) ;;
       ret (first_row_get rows (urlColumnName cfg)))
    (fun error =>
       emit (LoggerError "Error dequeuing URL") ;;
       ret Js.JUndefined).

(** The two tables, then the seed: [INSERT INTO queue (url, depth)
    VALUES (?, ?)] with [[this.targetUrl, 0]]. *)
Definition createTables (cfg : Config) : M (World Z) unit :=
  try_catch
    (create_table_if_not_exists ;;
     create_table_if_not_exists ;;
     _ <- try_queue (Sql.insert_queue (targetUrl cfg) 0) ;;
     ret tt)
    (fun error => emit (LoggerError "Error creating tables")).

Definition queueUrls (urls : list string) : M (World Z) unit :=
  transaction
    (for_each urls (fun url =>
       try_catch
         (insertId <- try_queue (Sql.insert_queue url 0) ;;
          if Js.truthy (Js.JNum insertId)
          then emit (LoggerInfo ("Queued URL: " +:+ url))
          else ret tt)
         (fun error =>
            match error with
            | SqlExn Sql.ER_DUP_ENTRY => ret tt
            | _ => throw error
            end))).

(** [this.queueUrls(links)] is not awaited: its promise is created where
    the source calls it, with the links of the page, and runs on after
    the callback has logged and called [done()]. *)
Definition processPage (cfg : Config) (error : option string)
    (res : Response) : M (World Z) unit :=
  match error with
  | Some _ =>
      emit (LoggerError "Error crawling URL:") ;;
      done ;;
      ret tt
  | None =>
      let url := uri res in
      pending <-
        try_finally
          (try_catch
             (result <- gets (fun w => Sql.select_page url (pages w)) ;;
              (if Nat.ltb 0 (length result)
               then exec_pages
                      (Sql.update_page (title res) (description res) (html res) url)
               else try_pages
                      (Sql.insert_page url (title res) (description res) (html res))) ;;
              exec_queue (Sql.mark_crawled_by_url url) ;;
              let pending :=
                if res_depth res <? maxDepth cfg
                then [queueUrls (extract_links (targetUrl cfg) (anchors res))]
                else [] in
              emit (LoggerInfo "Crawled URL:") ;;
              ret pending)
             (fun error =>
                emit (LoggerError "Error processing URL:") ;;
                ret []))
          done ;;
      settle pending
  end.

(** *** Two invocations of [dequeueUrl] on one database

    Between two [await]s an invocation runs alone; each statement is
    executed by the engine as a whole.  An invocation is therefore at one
    of three points: before its SELECT, between its SELECT and its UPDATE
    (holding the rows it read), or finished (with the ids it marked and
    the value it returns). *)
Inductive Pc :=
| BeforeSelect
| BeforeUpdate (rows : list (gmap string Js.Value))
| Finished (marked : list Js.Value) (returned : Js.Value).

Definition step (cfg : Config) (pc : Pc) (w : World Z) : Pc * World Z :=
  match pc with
  | BeforeSelect =>
      let rows := select_next_ids (maxDepth cfg) 1 (queue w) in
      let ids := map (fun row => Js.get row "id") rows in
      let w' := snd (emit (ConsoleRows rows) w) in
      if Nat.eqb (length ids) 0 then (Finished [] Js.JUndefined, w')
      else (BeforeUpdate rows, w')
  | BeforeUpdate rows =>
      let ids := map (fun row => Js.get row "id") rows in
      (Finished ids (first_row_get rows (urlColumnName cfg)),
       with_queue (Sql.mark_crawled_by_ids ids) w)
  | Finished _ _ => (pc, w)
  end.

(** A schedule names, turn by turn, which of the two invocations moves. *)
Fixpoint run (cfg : Config) (schedule : list bool) (a b : Pc) (w : World Z)
    : Pc * Pc * World Z :=
  match schedule with
  | [] => (a, b, w)
  | true :: rest =>
      let (a', w') := step cfg a w in run cfg rest a' b w'
  | false :: rest =>
      let (b', w') := step cfg b w in run cfg rest a b' w'
  end.

(** *** The rest of the class *)

(** The options the model keeps, of the thirteen the constructor reads. *)
Record Options := mkOptions {
  opt_maxDepth : option Z;
  opt_urlColumnName : option string
}.

(** [this.maxDepth = options.maxDepth || 3],
    [this.urlColumnName = options.urlColumnName || "url"] *)
Definition constructor (target : string) (options : Options) : Config :=
  mkConfig target
           (number_or (opt_maxDepth options) 3)
           (string_or (opt_urlColumnName options) "url").

(** The loop of [dequeueUrls]: [remaining] is [count - dequeuedCount]. *)
Fixpoint dequeueUrls_loop (cfg : Config) (remaining : nat)
    (urls : list Js.Value) : M (World Z) (list Js.Value) :=
  match remaining with
  | O => ret urls
  | S remaining' =>
      url <- dequeueUrl cfg ;;
      match url with
      | Js.JUndefined => ret urls
      | _ => dequeueUrls_loop cfg remaining' (urls ++ [url])
      end
  end.

(** [dequeueUrls(count)], for a count that is a natural number. *)
Definition dequeueUrls (cfg : Config) (count : nat)
    : M (World Z) (list Js.Value) :=
  dequeueUrls_loop cfg count [].

(** [while (url !== undefined) { new Crawler(...).queue(url);
     url = await this.dequeueUrl() }].  The loop is cut off after [fuel]
    turns; the answer tells whether it came to its end. *)
Fixpoint drain (cfg : Config) (fuel : nat) (url : Js.Value)
    : M (World Z) bool :=
  match url with
  | Js.JUndefined => ret true
  | _ =>
      match fuel with
      | O => ret false
      | S fuel' =>
          crawler_enqueue url ;;
          next <- dequeueUrl cfg ;;
          drain cfg fuel' next
      end
  end.

Definition start (cfg : Config) (fuel : nat) : M (World Z) bool :=
  emit (LoggerInfo "Starting WebXenon...") ;;
  finished <- try_catch
                (createTables cfg ;;
                 url <- dequeueUrl cfg ;;
                 drain cfg fuel url)
                (fun error =>
                   emit (LoggerError "Error starting WebXenon") ;;
                   ret true) ;;
  emit (LoggerInfo "WebXenon stopped.") ;;
  ret finished.

End Part001.

(** ** src/unnamed/part_002 *)

Module Part002.
Import Async.

Record Config := mkConfig {
  targetUrl : string;
  maxDepth : Z
}.

(** As in part_001: [res.options.uri], [res.options.depth], the trimmed
    title and description, the href of every anchor, [$.html()]. *)
Record Response := mkResponse {
  uri : string;
  res_depth : Z;
  title : string;
  description : option string;
  anchors : list (option string);
  html : string
}.

(** queue(id, url, is_crawled): no further column. *)
Definition queueUrls (urls : list string) : M (World unit) unit :=
  transaction
    (for_each urls (fun url =>
       result <- gets (fun w => Sql.select_queue url (queue w)) ;;
       if Nat.eqb (length result) 0
       then _ <- try_queue (Sql.insert_queue url tt) ;; ret tt
       else ret tt)).

(** The two tables; an error is logged and thrown on. *)
Definition createTables : M (World unit) unit :=
  try_catch
    (create_table_if_not_exists ;;
     create_table_if_not_exists)
    (fun error =>
       emit (LoggerError "Error creating database tables:") ;;
       throw error).

(** [await this.createTables(); this.queueUrls([this.targetUrl])]: the
    promise of [queueUrls] is the last thing [start] creates. *)
Definition start (cfg : Config) : M (World unit) unit :=
  createTables ;;
  spawn (queueUrls [targetUrl cfg]).

(** As in part_001, the promise of [this.queueUrls(links)] runs on after
    the callback has logged and called [done()]. *)
Definition processPage (cfg : Config) (error : option string)
    (res : Response) : M (World unit) unit :=
  match error with
  | Some _ =>
      emit (LoggerError "Error crawling URL:") ;;
      done ;;
      ret tt
  | None =>
      let url := uri res in
      pending <-
        try_finally
          (try_catch
             (transaction
                (result <- gets (fun w => Sql.select_page url (pages w)) ;;
                 (if Nat.ltb 0 (length result)
                  then exec_pages
                         (Sql.update_page (title res) (description res) (html res) url)
                  else try_pages
                         (Sql.insert_page url (title res) (description res) (html res))) ;;
                 exec_queue (Sql.mark_crawled_by_url url)) ;;
              let pending :=
                if res_depth res <? maxDepth cfg
                then [queueUrls (extract_links (targetUrl cfg) (anchors res))]
                else [] in
              emit (LoggerInfo "Crawled URL:") ;;
              ret pending)
             (fun error =>
                emit (LoggerError "Error processing URL:") ;;
                ret []))
          done ;;
      settle pending
  end.

(** [this.maxDepth = options.maxDepth || 3] *)
Definition constructor (target : string) (opt_maxDepth : option Z) : Config :=
  mkConfig target (number_or opt_maxDepth 3).

End Part002.

(** ** src/WebCrawler.ts *)

Module WebCrawler.
Import Async.

Record Config := mkConfig {
  targetUrl : string;
  maxDepth : Z;
  urlColumnName : string
}.

(** What the callback reads off [res]: [res.options.uri] (whose type the
    callback itself checks), [res.options.depth],
    [$(this.titleSelector).text()],
    [$(this.descriptionSelector).attr("content")], the href attribute of
    every [a] element in document order, and [res.body]. *)
Record Response := mkResponse {
  uri : Js.Value;
  res_depth : Z;
  title : string;
  description : option string;
  anchors : list (option string);
  body : string
}.

(** [queueUrls] writes each URL into the statement text between double
    quotes.  For a URL without a double quote and without a backslash the
    literal so written denotes the URL itself, and the statement is the
    INSERT IGNORE of these values: the model reads it so.  With another
    URL the text is that of another statement, or of none, and what the
    model says of [queueUrls] does not apply. *)
Definition sql_plain (u : string) : bool :=
  forallb
    (fun c => negb (Ascii.eqb c (Ascii.ascii_of_nat 34))
              && negb (Ascii.eqb c (Ascii.ascii_of_nat 92)))
    (list_ascii_of_string u).

(** [INSERT IGNORE INTO queue (url, is_crawled) VALUES (u1, false), ...]
    Without a url the text ends at [VALUES], which no engine accepts. *)
Definition queueUrls (urls : list string) : M (World unit) unit :=
  match urls with
  | [] => throw (SqlExn Sql.ER_PARSE_ERROR)
  | _ => exec_queue (Sql.insert_ignore_queue_all tt urls)
  end.

(** [await createPagesTable(); await createQueueTable();
     this.queueUrls([this.targetUrl])]: the promise of [queueUrls] is the
    last thing [start] creates. *)
Definition start (cfg : Config) : M (World unit) unit :=
  create_table_if_not_exists ;;
  create_table_if_not_exists ;;
  spawn (queueUrls [targetUrl cfg]).

(** [SELECT url FROM queue WHERE is_crawled = false LIMIT 1 FOR UPDATE]:
    one object per row, with the selected column.  The statement runs
    outside any transaction, so its row lock is gone when it returns. *)
Definition next_rows (limit : nat) (t : Sql.Table (Sql.QueueRow unit))
    : list (Sql.QueueRow unit) :=
  take limit (List.filter (fun r => negb (Sql.q_is_crawled r)) (Sql.rows t)).

Definition select_uncrawled (cfg : Config) (limit : nat)
    (t : Sql.Table (Sql.QueueRow unit)) : list (gmap string Js.Value) :=
  map (fun r => {[ urlColumnName cfg := Js.JStr (Sql.q_url r) ]})
      (next_rows limit t).

(** [const [row] = await conn.query(...)]: the promise resolves to the
    pair of the row array and the field list, so [row] is the row
    array. *)
Definition getNextUrl (cfg : Config) : M (World unit) Js.Value :=
  row <- gets (fun w => select_uncrawled cfg 1 (queue w)) ;;
  if Js.truthy Js.JObject && Js.truthy (Js.array_get row (urlColumnName cfg))
  then ret (Js.array_get row (urlColumnName cfg))
  else ret Js.JNull.

Definition markUrlAsCrawled (url : string) : M (World unit) unit :=
  exec_queue (Sql.mark_crawled_by_url url).

(** [$("a[href^=" + this.targetUrl + "]")], read as the selector of the
    anchors whose href begins with the target; a prefix selector with an
    empty value selects nothing.  Whether the text so composed is that
    selector is for the selector engine to say (a target with a closing
    bracket ends the selector early; an engine may want the value
    quoted): what the model says of the links of a page in
    src/WebCrawler.ts holds where it is. *)
Definition selected (target : string) (anchor : option string) : bool :=
  match anchor with
  | Some href => negb (String.eqb target "") && Js.startsWith href target
  | None => false
  end.

(** The links one run of the callback hands to [queueUrls]: the href of
    each selected anchor that passes [if (link)]. *)
Definition enqueued_links (target : string) (anchors : list (option string))
    : list string :=
  List.filter (fun href => Js.truthy (Js.JStr href))
              (hrefs (List.filter (selected target) anchors)).

(** The value the url column receives from a bound parameter: a string
    is stored as it is; [undefined] and [null] are written NULL, which
    the column, NOT NULL, rejects; what becomes of any other value is the
    business of the driver and the engine, [driver], which may also
    reject it. *)
Definition bind_url (driver : Js.Value -> Sql.Result string)
    (v : Js.Value) : Sql.Result string :=
  match v with
  | Js.JStr s => Sql.Ok s
  | Js.JUndefined | Js.JNull => Sql.Err Sql.ER_BAD_NULL_ERROR
  | _ => driver v
  end.

Definition crawl (driver : Js.Value -> Sql.Result string) (cfg : Config)
    (error : option string) (res : Response) : M (World unit) unit :=
  (match error with
   | Some e => emit (ConsoleError e)
   | None =>
       emit (ConsoleLog "Crawled") ;;
       let url := uri res in
       try_finally
         ((match bind_url driver url with
           | Sql.Ok key =>
               exec_pages
                 (Sql.insert_page_on_duplicate_key_update
                    key (title res) (description res) (body res))
           | Sql.Err e => throw (SqlExn e)
           end) ;;
          if res_depth res <? maxDepth cfg
          then for_each (List.filter (selected (targetUrl cfg)) (anchors res))
                 (fun link =>
                    match link with
                    | Some href =>
                        if Js.truthy (Js.JStr href)
                        then spawn (queueUrls [href])
                        else ret tt
                    | None => ret tt
                    end)
          else ret tt)
         (ret tt) ;;
       match url with
       | Js.JStr s => markUrlAsCrawled s
       | _ => throw (JsExn "url is not string")
       end
   end) ;;
  done ;;
  nextUrl <- getNextUrl cfg ;;
  if Js.truthy nextUrl then crawler_enqueue nextUrl else ret tt.

(** The options the model keeps.  The constructor takes them apart with
    defaults ([maxDepth = 0], [urlColumnName = "url"]), which stand in for
    [undefined] only. *)
Record Options := mkOptions {
  opt_maxDepth : option Z;
  opt_urlColumnName : option string
}.

Definition constructor (target : string) (options : Options) : Config :=
  mkConfig target
           (default 0 (opt_maxDepth options))
           (default "url" (opt_urlColumnName options)).

End WebCrawler.

(** ** [stop()], the same in src/unnamed/part_001 and part_002 *)

Module Shutdown.

(** The one handler the class ever registers: the arrow function that
    [stop] hands to [this.crawler.on("drain", ...)]. *)
Inductive Listener :=
| EndPoolOnDrain.

(** The crawler as an event emitter (its listeners, oldest first, each
    under its event), the pool, and the log. *)
Record State := mkState {
  listeners : list (string * Listener);
  pool_ended : bool;
  stop_log : list LogEntry
}.

(** [emitter.on(event, listener)] *)
Definition on (event : string) (l : Listener) (st : State) : State :=
  mkState (listeners st ++ [(event, l)]) (pool_ended st) (stop_log st).

(** [emitter.removeAllListeners()], without an event name: the listeners
    of every event go. *)
Definition removeAllListeners (st : State) : State :=
  mkState [] (pool_ended st) (stop_log st).

(** The body of the handler:
    [this.logger.info("Crawler has stopped."); this.pool.end()] *)
Definition run_listener (l : Listener) (st : State) : State :=
  match l with
  | EndPoolOnDrain =>
      mkState (listeners st) true
              (stop_log st ++ [LoggerInfo "Crawler has stopped."])
  end.

(** [emitter.emit(event)]: the listeners registered under the event at
    that moment run, oldest first. *)
Definition fire (event : string) (st : State) : State :=
  fold_left
    (fun st' (entry : string * Listener) =>
       if String.eqb (fst entry) event then run_listener (snd entry) st'
       else st')
    (listeners st) st.

Definition stop (st : State) : State :=
  let st1 := on "drain" EndPoolOnDrain st in
  let st2 := removeAllListeners st1 in
  mkState (listeners st2) (pool_ended st2)
          (stop_log st2 ++ [LoggerInfo "Crawler is stopping..."]).

End Shutdown.

(** ** src/unnamed/part_000: the entry point *)

Module Index.

(** The five settings [main] insists on, as read from the environment. *)
Record Env := mkEnv {
  DB_HOST : option string;
  DB_USER : option string;
  DB_PASSWORD : option string;
  DB_NAME : option string;
  TARGET_URL : option string
}.

(** [!v] is false: the variable is set, and not to the empty string. *)
Definition present (v : option string) : bool :=
  match v with
  | Some s => Js.truthy (Js.JStr s)
  | None => false
  end.

(** The target [main] starts the crawler with; [None] when it prints
    "Missing required configuration variables." and exits with status 1. *)
Definition main (env : Env) : option string :=
  if present (DB_HOST env) && present (DB_USER env)
     && present (DB_PASSWORD env) && present (DB_NAME env)
     && present (TARGET_URL env)
  then TARGET_URL env
  else None.

End Index.

(** ** Concrete frontiers and pages *)

Module Sample.
Import Sql.

Definition seed : string := "https://example.com".

Definition cfg1 : Part001.Config := Part001.mkConfig seed 3 "url".

(** The frontier of part_001 after [createTables]: the seed, unclaimed. *)
Definition seeded1 : World Z :=
  mkWorld empty (mkTable [mkQueue 1 seed false 0] 2) [] 0 [].

(** The same frontier with the seed claimed. *)
Definition claimed1 : World Z :=
  mkWorld empty (mkTable [mkQueue 1 seed true 0] 2) [] 0 [].

(** The seed page, fetched at depth 0: two links in scope, one out of
    scope, one anchor without href. *)
Definition page1 : Part001.Response :=
  Part001.mkResponse seed 0 "Example" (Some "An example")
    [Some "https://example.com/a"; Some "https://other.org/x"; None;
     Some "https://example.com/b"]
    "<html></html>".

Definition cfg2 : Part002.Config := Part002.mkConfig seed 1.

Definition seeded2 : World unit :=
  mkWorld empty (mkTable [mkQueue 1 seed false tt] 2) [] 0 [].

Definition page2 : Part002.Response :=
  Part002.mkResponse seed 0 "Example" (Some "An example")
    [Some "https://example.com/a"; Some "https://other.org/x"; None;
     Some "https://example.com/b"]
    "<html></html>".

(** The same page fetched at the depth limit. *)
Definition page2_at_limit : Part002.Response :=
  Part002.mkResponse seed 1 "Example" (Some "An example")
    [Some "https://example.com/a"; Some "https://other.org/x"; None;
     Some "https://example.com/b"]
    "<html></html>".

Definition cfg0 : WebCrawler.Config := WebCrawler.mkConfig seed 1 "url".

Definition page0 : WebCrawler.Response :=
  WebCrawler.mkResponse (Js.JStr seed) 0 "Example" (Some "An example")
    [Some "https://example.com/a"; Some "https://other.org/x"; None;
     Some "https://example.com/b"]
    "<html></html>".

(** A response whose [uri] is the number 42. *)
Definition page0_number : WebCrawler.Response :=
  WebCrawler.mkResponse (Js.JNum 42) 0 "Example" (Some "An example")
    [Some "https://example.com/a"] "<html></html>".

(** A driver that files a number under its decimal form [42] and rejects
    every other value that is not a string. *)
Definition driver42 (v : Js.Value) : Result string :=
  match v with
  | Js.JNum 42 => Ok "42"
  | _ => Err ER_BAD_NULL_ERROR
  end.
End Sample.

(** ** Further concrete frontiers *)

Module SampleMore.
Import Sql.

(** A frontier of part_001 with three rows: the seed, claimed, and two
    links, unclaimed. *)
Definition crawling1 : World Z :=
  mkWorld empty
    (mkTable [mkQueue 1 Sample.seed true 0;
              mkQueue 2 "https://example.com/a" false 0;
              mkQueue 3 "https://example.com/b" false 0] 4)
    [] 0 [].


(** src/WebCrawler.ts without options. *)
Definition no_options : WebCrawler.Options :=
  WebCrawler.mkOptions None None.

(** A page that links to itself. *)
Definition self_link2 : Part002.Response :=
  Part002.mkResponse "https://example.com/s" 0 "Self" None
    [Some "https://example.com/s"] "<html></html>".

(** The seed page of src/WebCrawler.ts fetched at the depth limit of
    [Sample.cfg0], and with a [uri] that is a number, or [undefined]. *)
Definition page0_at_limit : WebCrawler.Response :=
  WebCrawler.mkResponse (Js.JStr Sample.seed) 1 "Example"
    (Some "An example") [Some "https://example.com/a"] "<html></html>".

Definition page0_number_at_limit : WebCrawler.Response :=
  WebCrawler.mkResponse (Js.JNum 42) 1 "Example" (Some "An example")
    [Some "https://example.com/a"] "<html></html>".

Definition page0_undefined : WebCrawler.Response :=
  WebCrawler.mkResponse Js.JUndefined 0 "Example" (Some "An example")
    [] "<html></html>".

(** A frontier of src/WebCrawler.ts with two rows that are not crawled. *)
Definition waiting0 : World unit :=
  mkWorld empty
    (mkTable [mkQueue 1 Sample.seed false tt;
              mkQueue 2 "https://example.com/a" false tt] 3)
    [] 0 [].

(** An emitter with no listener, a pool that is open. *)
Definition running : Shutdown.State := Shutdown.mkState [] false [].
End SampleMore.

(** ** Vocabulary of the statements *)

(** [t'] is [t] after an upsert of the page [(u, title, d, html)]: a new
    row behind the others when [t] has none for [u], the three fields
    overwritten in place when it has one, and either way exactly one row
    for [u], which carries the values just written. *)
Definition upserted (u title : string) (d : option string) (html : string)
    (t t' : Sql.Table Sql.PageRow) : Prop :=
  (Sql.select_page u t = [] ->
   Sql.rows t'
   = Sql.rows t ++ [Sql.mkPage (Sql.auto_increment t) u title d html])
  /\ (Sql.select_page u t <> [] ->
      Sql.rows t'
      = map (fun r => if Sql.page_has_url u r
                      then Sql.set_page_fields title d html r else r)
            (Sql.rows t))
  /\ exists id, Sql.select_page u t' = [Sql.mkPage id u title d html].

(** The page [(u, title, d, html)] is stored in [t]. *)
Definition persisted (u title : string) (d : option string) (html : string)
    (t : Sql.Table Sql.PageRow) : Prop :=
  exists id, In (Sql.mkPage id u title d html) (Sql.rows t).

(** The queue after a successful callback of part_001, of part_002, and
    the queue of src/WebCrawler.ts after the links are handed over. *)
Definition p1_queue_after (cfg : Part001.Config) (res : Part001.Response)
    (t : Sql.Table (Sql.QueueRow Z)) : Sql.Table (Sql.QueueRow Z) :=
  if Part001.res_depth res <? Part001.maxDepth cfg
  then Sql.insert_ignore_queue_all 0
         (extract_links (Part001.targetUrl cfg) (Part001.anchors res))
         (Sql.mark_crawled_by_url (Part001.uri res) t)
  else Sql.mark_crawled_by_url (Part001.uri res) t.

Definition p2_queue_after (cfg : Part002.Config) (res : Part002.Response)
    (t : Sql.Table (Sql.QueueRow unit)) : Sql.Table (Sql.QueueRow unit) :=
  if Part002.res_depth res <? Part002.maxDepth cfg
  then Sql.insert_ignore_queue_all tt
         (extract_links (Part002.targetUrl cfg) (Part002.anchors res))
         (Sql.mark_crawled_by_url (Part002.uri res) t)
  else Sql.mark_crawled_by_url (Part002.uri res) t.

Definition wc_queue_enqueued (cfg : WebCrawler.Config)
    (res : WebCrawler.Response) (t : Sql.Table (Sql.QueueRow unit))
    : Sql.Table (Sql.QueueRow unit) :=
  if WebCrawler.res_depth res <? WebCrawler.maxDepth cfg
  then Sql.insert_ignore_queue_all tt
         (WebCrawler.enqueued_links (WebCrawler.targetUrl cfg)
            (WebCrawler.anchors res)) t
  else t.

(** The tail of [crawl]: [getNextUrl], and [crawler.queue] of what it
    answers when that is truthy. *)
Definition wc_next (cfg : WebCrawler.Config) (w : World unit) : World unit :=
  snd (Async.bind (WebCrawler.getNextUrl cfg)
         (fun nextUrl =>
            if Js.truthy nextUrl then crawler_enqueue nextUrl
            else Async.ret tt) w).

(** Every element of a sorted list is at or after its head. *)
Fixpoint sorted (l : list (Sql.QueueRow Z)) : Prop :=
  match l with
  | [] => True
  | h :: t => (forall x, In x t -> Part001.row_leb h x = true) /\ sorted t
  end.

(** Both tables respect their keys: the UNIQUE KEY on url of either table,
    and for the queue the PRIMARY KEY and the counter. *)
Definition world_wf {X : Type} (w : World X) : Prop :=
  Sql.queue_wf (queue w) /\ Sql.page_wf (pages w).

(** ** The entry point *)

Section EntryPoint.
(** The crawler is never started with an empty target. *)
Lemma main_target_nonempty (env : Index.Env) (target : string) :
  Index.main env = Some target -> target <> "".
Proof.
  unfold Index.main. intros H.
  destruct (Index.present (Index.TARGET_URL env)) eqn:Hp.
  - destruct (_ && _) in H; [|discriminate].
    rewrite H in Hp. simpl in Hp. intros ->. discriminate.
  - rewrite andb_false_r in H. discriminate.
Qed.
End EntryPoint.

(** * Properties *)

(** ** The tables *)

Module SqlFacts.
Import Sql.

(** A key that occurs once in a list selects at most one element. *)
Lemma filter_key_unique {A : Type} (key : A -> string) (u : string)
    (l : list A) :
  NoDup (map key l) ->
  (length (List.filter (fun r => String.eqb (key r) u) l) <= 1)%nat.
Proof.
  induction l as [|r l IH]; simpl; intros Hnd.
  - lia.
  - apply NoDup_cons in Hnd as [Hnotin Hnd].
    destruct (String.eqb (key r) u) eqn:Hr; simpl; [|auto].
    apply String.eqb_eq in Hr.
    destruct (List.filter (fun r => String.eqb (key r) u) l)
      as [|r' l'] eqn:Hf; [simpl; lia|].
    exfalso. apply Hnotin.
    assert (Hin : In r' (List.filter (fun r => String.eqb (key r) u) l))
      by (rewrite Hf; left; reflexivity).
    apply filter_In in Hin as [Hin Hr'].
    apply String.eqb_eq in Hr'.
    apply list_elem_of_In, in_map_iff. exists r'. split; congruence.
Qed.

Section QueueFacts.
Context {X : Type}.
Implicit Types (t : Table (QueueRow X)) (u : string) (x : X).

Lemma queue_has_url_iff u (r : QueueRow X) :
  queue_has_url u r = true <-> q_url r = u.
Proof. unfold queue_has_url. apply String.eqb_eq. Qed.

Lemma insert_queue_error u x t e :
  insert_queue u x t = Err e -> e = ER_DUP_ENTRY.
Proof.
  unfold insert_queue. destruct (existsb _ _); congruence.
Qed.

Lemma select_queue_nil_iff u t :
  select_queue u t = [] <-> existsb (queue_has_url u) (rows t) = false.
Proof.
  unfold select_queue. induction (rows t) as [|r l IH]; simpl.
  - tauto.
  - destruct (queue_has_url u r); simpl; [split; discriminate | exact IH].
Qed.

Lemma select_queue_unique u t :
  NoDup (map q_url (rows t)) -> (length (select_queue u t) <= 1)%nat.
Proof. apply (filter_key_unique q_url). Qed.

Lemma insert_ignore_queue_present u x t :
  existsb (queue_has_url u) (rows t) = true ->
  insert_ignore_queue u x t = t.
Proof.
  intros H. unfold insert_ignore_queue, insert_queue. now rewrite H.
Qed.

Lemma insert_ignore_queue_absent u x t :
  existsb (queue_has_url u) (rows t) = false ->
  insert_ignore_queue u x t
  = mkTable (rows t ++ [mkQueue (auto_increment t) u false x])
            (auto_increment t + 1).
Proof.
  intros H. unfold insert_ignore_queue, insert_queue. now rewrite H.
Qed.

Lemma has_url_after_insert_ignore u x t :
  existsb (queue_has_url u) (rows (insert_ignore_queue u x t)) = true.
Proof.
  destruct (existsb (queue_has_url u) (rows t)) eqn:H.
  - now rewrite insert_ignore_queue_present.
  - rewrite insert_ignore_queue_absent by assumption. simpl.
    rewrite existsb_app. simpl. unfold queue_has_url at 2. simpl.
    rewrite String.eqb_refl. now rewrite orb_true_r.
Qed.

Lemma insert_ignore_queue_twice u x x' t :
  insert_ignore_queue u x' (insert_ignore_queue u x t)
  = insert_ignore_queue u x t.
Proof.
  apply insert_ignore_queue_present, has_url_after_insert_ignore.
Qed.

Lemma queue_wf_empty : queue_wf (@empty (QueueRow X)).
Proof.
  unfold queue_wf, empty; simpl. repeat split; constructor.
Qed.

Lemma queue_wf_insert_ignore u x t :
  queue_wf t -> queue_wf (insert_ignore_queue u x t).
Proof.
  intros (Hu & Hi & Hb).
  destruct (existsb (queue_has_url u) (rows t)) eqn:H.
  - rewrite insert_ignore_queue_present by assumption. now repeat split.
  - rewrite insert_ignore_queue_absent by assumption.
    unfold queue_wf; simpl. rewrite !map_app; simpl.
    repeat split.
    + apply NoDup_app. repeat split; [assumption| |apply NoDup_singleton].
      intros v Hv Hv'. apply list_elem_of_singleton in Hv'. subst v.
      apply list_elem_of_In, in_map_iff in Hv as (r & Hr & Hin).
      assert (Hex : existsb (queue_has_url u) (rows t) = true).
      { apply existsb_exists. exists r. split; [assumption|].
        now apply queue_has_url_iff. }
      congruence.
    + apply NoDup_app. repeat split; [assumption| |apply NoDup_singleton].
      intros v Hv Hv'. apply list_elem_of_singleton in Hv'. subst v.
      apply list_elem_of_In, in_map_iff in Hv as (r & Hr & Hin).
      rewrite Forall_forall in Hb.
      apply list_elem_of_In in Hin. specialize (Hb r Hin). simpl in Hb. lia.
    + apply Forall_app. split.
      * eapply Forall_impl; [exact Hb|]. simpl. intros; lia.
      * constructor; [simpl; lia | constructor].
Qed.

Lemma map_mark_id (p : QueueRow X -> bool) (l : list (QueueRow X)) :
  map q_id (map (fun r => if p r then set_crawled r else r) l) = map q_id l.
Proof.
  rewrite map_map. apply map_ext. intros r. now destruct (p r).
Qed.

Lemma map_mark_url (p : QueueRow X -> bool) (l : list (QueueRow X)) :
  map q_url (map (fun r => if p r then set_crawled r else r) l)
  = map q_url l.
Proof.
  rewrite map_map. apply map_ext. intros r. now destruct (p r).
Qed.

Lemma queue_wf_mark (p : QueueRow X -> bool) t :
  queue_wf t ->
  queue_wf (mkTable (map (fun r => if p r then set_crawled r else r) (rows t))
                    (auto_increment t)).
Proof.
  intros (Hu & Hi & Hb). unfold queue_wf; simpl.
  rewrite map_mark_id, map_mark_url. repeat split; try assumption.
  apply Forall_map. eapply Forall_impl; [exact Hb|].
  intros r Hr. simpl. now destruct (p r).
Qed.


(** *** Rows are kept *)

Lemma row_evolves_refl (r : QueueRow X) : row_evolves r r.
Proof. unfold row_evolves. tauto. Qed.

Lemma row_evolves_trans (r1 r2 r3 : QueueRow X) :
  row_evolves r1 r2 -> row_evolves r2 r3 -> row_evolves r1 r3.
Proof.
  unfold row_evolves. intros (?&?&?&?) (?&?&?&?).
  repeat split; try congruence. auto.
Qed.

Lemma row_evolves_set_crawled (r : QueueRow X) : row_evolves r (set_crawled r).
Proof. unfold row_evolves, set_crawled; simpl. tauto. Qed.

Lemma Forall2_row_evolves_refl (l : list (QueueRow X)) :
  Forall2 row_evolves l l.
Proof. induction l; constructor; auto using row_evolves_refl. Qed.

Lemma queue_evolves_refl t : queue_evolves t t.
Proof.
  exists (rows t), []. split; [now rewrite app_nil_r|].
  apply Forall2_row_evolves_refl.
Qed.

Lemma queue_evolves_trans t1 t2 t3 :
  queue_evolves t1 t2 -> queue_evolves t2 t3 -> queue_evolves t1 t3.
Proof.
  intros (k1 & a1 & E1 & F1) (k2 & a2 & E2 & F2).
  rewrite E1 in F2.
  apply Forall2_app_inv_l in F2 as (k2a & k2b & Fa & Fb & ->).
  exists k2a, (k2b ++ a2). split.
  - now rewrite E2, <- app_assoc.
  - clear -F1 Fa. revert k2a Fa.
    induction F1; intros k Fa; inversion Fa; subst; constructor;
      eauto using row_evolves_trans.
Qed.

Lemma queue_evolves_insert_ignore u x t :
  queue_evolves t (insert_ignore_queue u x t).
Proof.
  destruct (existsb (queue_has_url u) (rows t)) eqn:H.
  - rewrite insert_ignore_queue_present by assumption.
    apply queue_evolves_refl.
  - rewrite insert_ignore_queue_absent by assumption.
    eexists (rows t), _. split; [reflexivity|].
    apply Forall2_row_evolves_refl.
Qed.

Lemma queue_evolves_mark (p : QueueRow X -> bool) t :
  queue_evolves t
    (mkTable (map (fun r => if p r then set_crawled r else r) (rows t))
             (auto_increment t)).
Proof.
  eexists _, []. split; [simpl; now rewrite app_nil_r|].
  induction (rows t) as [|r l IH]; simpl; constructor; [|exact IH].
  destruct (p r); auto using row_evolves_refl, row_evolves_set_crawled.
Qed.
End QueueFacts.

Section PageFacts.
Implicit Types (t : Table PageRow) (u title html : string)
  (d : option string).

Lemma page_has_url_iff u (r : PageRow) :
  page_has_url u r = true <-> p_url r = u.
Proof. unfold page_has_url. apply String.eqb_eq. Qed.

Lemma select_page_nil_iff u t :
  select_page u t = [] <-> existsb (page_has_url u) (rows t) = false.
Proof.
  unfold select_page. induction (rows t) as [|r l IH]; simpl.
  - tauto.
  - destruct (page_has_url u r); simpl; [split; discriminate | exact IH].
Qed.

Lemma select_page_unique u t :
  page_wf t -> (length (select_page u t) <= 1)%nat.
Proof. apply (filter_key_unique p_url). Qed.

Lemma upsert_absent u title d html t :
  existsb (page_has_url u) (rows t) = false ->
  insert_page_on_duplicate_key_update u title d html t
  = mkTable (rows t ++ [mkPage (auto_increment t) u title d html])
            (auto_increment t + 1).
Proof.
  intros H. unfold insert_page_on_duplicate_key_update, insert_page.
  now rewrite H.
Qed.

Lemma upsert_present u title d html t :
  existsb (page_has_url u) (rows t) = true ->
  insert_page_on_duplicate_key_update u title d html t
  = update_page title d html u t.
Proof.
  intros H. unfold insert_page_on_duplicate_key_update, insert_page.
  now rewrite H.
Qed.

(** SELECT, then UPDATE or INSERT according to what it found, is the
    single statement with ON DUPLICATE KEY UPDATE. *)
Lemma select_then_write u title d html t :
  (if Nat.ltb 0 (length (select_page u t))
   then Ok (update_page title d html u t)
   else insert_page u title d html t)
  = Ok (insert_page_on_duplicate_key_update u title d html t).
Proof.
  destruct (existsb (page_has_url u) (rows t)) eqn:H.
  - rewrite upsert_present by assumption.
    destruct (select_page u t) eqn:Hs; [|reflexivity].
    apply select_page_nil_iff in Hs. congruence.
  - rewrite upsert_absent by assumption.
    apply select_page_nil_iff in H as Hs. rewrite Hs. simpl.
    unfold insert_page. now rewrite H.
Qed.

Lemma update_page_absent u title d html t :
  existsb (page_has_url u) (rows t) = false ->
  update_page title d html u t = t.
Proof.
  intros H. unfold update_page. destruct t as [l n]; simpl in *. f_equal.
  induction l as [|r l IH]; simpl in *; [reflexivity|].
  apply orb_false_elim in H as [Hr Hl]. rewrite Hr. f_equal. auto.
Qed.

Lemma update_page_twice u title d html t :
  update_page title d html u (update_page title d html u t)
  = update_page title d html u t.
Proof.
  unfold update_page; simpl. f_equal. rewrite map_map.
  apply map_ext. intros r.
  destruct (page_has_url u r) eqn:Hr; [|now rewrite Hr].
  unfold page_has_url in *. simpl. now rewrite Hr.
Qed.

Lemma has_url_after_upsert u title d html t :
  existsb (page_has_url u)
    (rows (insert_page_on_duplicate_key_update u title d html t)) = true.
Proof.
  destruct (existsb (page_has_url u) (rows t)) eqn:H.
  - rewrite upsert_present by assumption. simpl.
    apply existsb_exists in H as (r & Hin & Hr).
    apply existsb_exists.
    exists (set_page_fields title d html r). split.
    + apply in_map_iff. exists r. now rewrite Hr.
    + exact Hr.
  - rewrite upsert_absent by assumption. simpl.
    rewrite existsb_app; simpl. unfold page_has_url at 2; simpl.
    rewrite String.eqb_refl. now rewrite orb_true_r.
Qed.

Lemma upsert_twice u title d html t :
  rows (insert_page_on_duplicate_key_update u title d html
          (insert_page_on_duplicate_key_update u title d html t))
  = rows (insert_page_on_duplicate_key_update u title d html t).
Proof.
  rewrite (upsert_present u title d html
             (insert_page_on_duplicate_key_update u title d html t))
    by apply has_url_after_upsert.
  destruct (existsb (page_has_url u) (rows t)) eqn:H.
  - rewrite upsert_present by assumption. now rewrite update_page_twice.
  - rewrite upsert_absent by assumption.
    unfold update_page; simpl. rewrite map_app; simpl.
    unfold page_has_url at 2; simpl. rewrite String.eqb_refl.
    f_equal.
    pose proof (update_page_absent u title d html t H) as E.
    unfold update_page in E. destruct t as [l n]; simpl in *.
    now injection E.
Qed.

Lemma page_wf_upsert u title d html t :
  page_wf t -> page_wf (insert_page_on_duplicate_key_update u title d html t).
Proof.
  unfold page_wf. intros Hnd.
  destruct (existsb (page_has_url u) (rows t)) eqn:H.
  - rewrite upsert_present by assumption. simpl.
    rewrite map_map.
    erewrite map_ext; [exact Hnd|]. intros r. simpl.
    now destruct (page_has_url u r).
  - rewrite upsert_absent by assumption. simpl. rewrite map_app; simpl.
    apply NoDup_app. repeat split; [assumption| |apply NoDup_singleton].
    intros v Hv Hv'. apply list_elem_of_singleton in Hv'. subst v.
    apply list_elem_of_In, in_map_iff in Hv as (r & Hr & Hin).
    assert (Hex : existsb (page_has_url u) (rows t) = true).
    { apply existsb_exists. exists r. split; [assumption|].
      now apply page_has_url_iff. }
    congruence.
Qed.

(** After the upsert the table holds exactly one row for the URL, and
    it carries the three fields just written. *)
Lemma select_after_upsert u title d html t :
  page_wf t ->
  exists id,
    select_page u (insert_page_on_duplicate_key_update u title d html t)
    = [mkPage id u title d html].
Proof.
  intros Hwf.
  destruct (existsb (page_has_url u) (rows t)) eqn:H.
  - rewrite upsert_present by assumption.
    pose proof (select_page_unique u t Hwf) as Hle.
    unfold select_page, update_page in *; simpl.
    clear Hwf. induction (rows t) as [|r l IH]; simpl in *; [discriminate|].
    destruct (page_has_url u r) eqn:Hr; simpl in *.
    + unfold page_has_url at 1; simpl.
      unfold page_has_url in Hr at 1. rewrite Hr.
      apply String.eqb_eq in Hr.
      exists (p_id r). unfold set_page_fields. rewrite Hr. f_equal.
      destruct (List.filter (page_has_url u) l) eqn:Hf; [|simpl in Hle; lia].
      assert (Hl : existsb (page_has_url u) l = false).
      { apply (select_page_nil_iff u (mkTable l 0)). exact Hf. }
      pose proof (update_page_absent u title d html (mkTable l 0) Hl) as E.
      unfold update_page in E; simpl in E. injection E as E.
      transitivity (List.filter (page_has_url u) l);
        [f_equal; exact E | exact Hf].
    + rewrite Hr. apply IH; assumption.
  - rewrite upsert_absent by assumption.
    apply select_page_nil_iff in H. unfold select_page in *; simpl.
    rewrite List.filter_app, H; simpl. unfold page_has_url at 1; simpl.
    rewrite String.eqb_refl. now exists (auto_increment t).
Qed.
End PageFacts.
End SqlFacts.

(** ** What one run of each method does *)

Section Runs.
Import Async Sql SqlFacts.

Lemma world_eta {X : Type} (w : World X) :
  mkWorld (pages w) (queue w) (log w) (done_calls w) (crawler_queue w) = w.
Proof. now destruct w. Qed.

Lemma insert_ignore_queue_all_cons {X : Type} (x : X) u urls
    (t : Table (QueueRow X)) :
  insert_ignore_queue_all x (u :: urls) t
  = insert_ignore_queue_all x urls (insert_ignore_queue u x t).
Proof. reflexivity. Qed.

(** The loop of part_001's [queueUrls]: one INSERT per URL, a duplicate
    swallowed; nothing else can go wrong. *)
Lemma p1_queue_loop_run urls (w : World Z) :
  exists lg,
    for_each urls (fun url =>
      try_catch
        (insertId <- try_queue (insert_queue url 0) ;;
         if Js.truthy (Js.JNum insertId)
         then emit (LoggerInfo ("Queued URL: " +:+ url))
         else ret tt)
        (fun error =>
           match error with
           | SqlExn ER_DUP_ENTRY => ret tt
           | _ => throw error
           end)) w
    = (Ret tt,
       mkWorld (pages w) (insert_ignore_queue_all 0 urls (queue w))
               (log w ++ lg) (done_calls w) (crawler_queue w)).
Proof.
  revert w. induction urls as [|u urls IH]; intros w.
  - exists []. simpl. unfold ret. now rewrite app_nil_r, world_eta.
  - rewrite insert_ignore_queue_all_cons.
    cbn [for_each]. unfold bind at 1, try_catch at 1, bind at 1, try_queue.
    destruct (existsb (queue_has_url u) (rows (queue w))) eqn:Hex.
    + rewrite insert_ignore_queue_present by assumption.
      unfold insert_queue at 1. rewrite Hex. cbn.
      destruct (IH w) as [lg Hlg]. exists lg.
      exact Hlg.
    + rewrite insert_ignore_queue_absent by assumption.
      unfold insert_queue at 1. rewrite Hex. cbn.
      destruct (negb (auto_increment (queue w) =? 0)); cbn.
      * match goal with |- context [for_each urls ?b ?w'] =>
          destruct (IH w') as [lg Hlg] end.
        eexists. etransitivity; [exact Hlg|].
        cbn. rewrite <- app_assoc. reflexivity.
      * match goal with |- context [for_each urls ?b ?w'] =>
          destruct (IH w') as [lg Hlg] end.
        eexists. etransitivity; [exact Hlg|]. reflexivity.
Qed.

Lemma p1_queueUrls_run urls (w : World Z) :
  exists lg,
    Part001.queueUrls urls w
    = (Ret tt,
       mkWorld (pages w) (insert_ignore_queue_all 0 urls (queue w))
               (log w ++ lg) (done_calls w) (crawler_queue w)).
Proof.
  destruct (p1_queue_loop_run urls w) as [lg Hlg]. exists lg.
  unfold Part001.queueUrls, transaction. unfold try_catch at 1.
  now rewrite Hlg.
Qed.

Lemma p2_queue_loop_run urls (w : World unit) :
  for_each urls (fun url =>
    result <- gets (fun w => select_queue url (queue w)) ;;
    if Nat.eqb (length result) 0
    then _ <- try_queue (insert_queue url tt) ;; ret tt
    else ret tt) w
  = (Ret tt, with_queue (insert_ignore_queue_all tt urls) w).
Proof.
  revert w. induction urls as [|u urls IH]; intros w.
  - now destruct w.
  - unfold with_queue. rewrite insert_ignore_queue_all_cons.
    cbn [for_each]. unfold bind at 1, bind at 1, gets.
    destruct (existsb (queue_has_url u) (rows (queue w))) eqn:Hex.
    + rewrite insert_ignore_queue_present by assumption.
      destruct (select_queue u (queue w)) eqn:Hs.
      { apply select_queue_nil_iff in Hs. congruence. }
      cbn. rewrite IH. reflexivity.
    + rewrite insert_ignore_queue_absent by assumption.
      apply select_queue_nil_iff in Hex as Hs. rewrite Hs. cbn.
      unfold bind, try_queue, insert_queue. rewrite Hex. cbn.
      rewrite IH. reflexivity.
Qed.

Lemma p2_queueUrls_run urls (w : World unit) :
  Part002.queueUrls urls w
  = (Ret tt, with_queue (insert_ignore_queue_all tt urls) w).
Proof.
  unfold Part002.queueUrls, transaction, try_catch.
  now rewrite p2_queue_loop_run.
Qed.

Lemma wc_queueUrls_run urls (w : World unit) :
  urls <> [] ->
  WebCrawler.queueUrls urls w
  = (Ret tt, with_queue (insert_ignore_queue_all tt urls) w).
Proof. destruct urls; [congruence | reflexivity]. Qed.

Lemma p2_start_run cfg (w : World unit) :
  Part002.start cfg w
  = (Ret tt,
     with_queue (insert_ignore_queue_all tt [Part002.targetUrl cfg]) w).
Proof.
  unfold Part002.start, Part002.createTables, create_table_if_not_exists.
  unfold bind at 1, try_catch at 1, bind at 1, ret at 1, ret at 1.
  unfold spawn, try_catch. now rewrite p2_queueUrls_run.
Qed.

Lemma wc_start_run cfg (w : World unit) :
  WebCrawler.start cfg w
  = (Ret tt,
     with_queue (insert_ignore_queue_all tt [WebCrawler.targetUrl cfg]) w).
Proof. reflexivity. Qed.
End Runs.

Section CallbackRuns.
Import Async Sql SqlFacts.

Lemma bind_ret_run {S A B : Type} (m : M S A) (k : A -> M S B) s a s' :
  m s = (Ret a, s') -> bind m k s = k a s'.
Proof. intros H. unfold bind. now rewrite H. Qed.

Lemma bind_throw_run {S A B : Type} (m : M S A) (k : A -> M S B) s e s' :
  m s = (Throw e, s') -> bind m k s = (Throw e, s').
Proof. intros H. unfold bind. now rewrite H. Qed.

(** The persist step shared by the two [processPage]s: SELECT the page,
    UPDATE or INSERT it, mark the queue row.  In the model the INSERT is
    never rejected, because the SELECT has just found the url free. *)
Lemma persist_then {X A : Type} (url title : string) (d : option string)
    (html : string) (k : M (World X) A) (w : World X) :
  (result <- gets (fun w => select_page url (pages w)) ;;
   (if Nat.ltb 0 (length result)
    then exec_pages (update_page title d html url)
    else try_pages (insert_page url title d html)) ;;
   exec_queue (mark_crawled_by_url url) ;;
   k) w
  = k (mkWorld (insert_page_on_duplicate_key_update url title d html (pages w))
               (mark_crawled_by_url url (queue w))
               (log w) (done_calls w) (crawler_queue w)).
Proof.
  unfold bind at 1, gets.
  destruct (existsb (page_has_url url) (rows (pages w))) eqn:Hex.
  - rewrite upsert_present by assumption.
    destruct (select_page url (pages w)) eqn:Hs.
    { apply select_page_nil_iff in Hs. congruence. }
    reflexivity.
  - rewrite upsert_absent by assumption.
    apply select_page_nil_iff in Hex as Hs. rewrite Hs.
    cbn [length Nat.ltb Nat.leb].
    unfold bind at 1, try_pages, insert_page. rewrite Hex.
    reflexivity.
Qed.

Lemma persist_run {X : Type} (url title : string) (d : option string)
    (html : string) (w : World X) :
  (result <- gets (fun w => select_page url (pages w)) ;;
   (if Nat.ltb 0 (length result)
    then exec_pages (update_page title d html url)
    else try_pages (insert_page url title d html)) ;;
   exec_queue (mark_crawled_by_url url)) w
  = (Ret tt,
     mkWorld (insert_page_on_duplicate_key_update url title d html (pages w))
             (mark_crawled_by_url url (queue w))
             (log w) (done_calls w) (crawler_queue w)).
Proof.
  unfold bind at 1, gets.
  destruct (existsb (page_has_url url) (rows (pages w))) eqn:Hex.
  - rewrite upsert_present by assumption.
    destruct (select_page url (pages w)) eqn:Hs.
    { apply select_page_nil_iff in Hs. congruence. }
    reflexivity.
  - rewrite upsert_absent by assumption.
    apply select_page_nil_iff in Hex as Hs. rewrite Hs.
    cbn [length Nat.ltb Nat.leb].
    unfold bind at 1, try_pages, insert_page. rewrite Hex.
    reflexivity.
Qed.

Lemma settle_nil {X : Type} (w : World X) : settle [] w = (Ret tt, w).
Proof. reflexivity. Qed.

Lemma settle_one {X : Type} (m : M (World X) unit) (w w' : World X) :
  m w = (Ret tt, w') -> settle [m] w = (Ret tt, w').
Proof.
  intros H. unfold settle. cbn [for_each]. unfold bind, spawn, try_catch.
  now rewrite H.
Qed.

Lemma p1_processPage_run cfg res (w : World Z) :
  exists lg,
    Part001.processPage cfg None res w
    = (Ret tt,
       mkWorld (insert_page_on_duplicate_key_update (Part001.uri res)
                  (Part001.title res) (Part001.description res)
                  (Part001.html res) (pages w))
               (p1_queue_after cfg res (queue w))
               (log w ++ lg) (S (done_calls w)) (crawler_queue w)).
Proof.
  unfold Part001.processPage, p1_queue_after.
  erewrite bind_ret_run; cycle 1.
  { unfold try_finally, try_catch. rewrite persist_then.
    cbv [bind emit modify ret done]. reflexivity. }
  destruct (Part001.res_depth res <? Part001.maxDepth cfg).
  - match goal with |- context [settle [Part001.queueUrls ?l] ?w'] =>
      destruct (p1_queueUrls_run l w') as [lg Hlg];
      rewrite (settle_one _ _ _ Hlg) end.
    cbn [pages queue log done_calls crawler_queue].
    eexists. rewrite <- app_assoc. reflexivity.
  - rewrite settle_nil. eexists. reflexivity.
Qed.

Lemma p1_processPage_error cfg e res (w : World Z) :
  Part001.processPage cfg (Some e) res w
  = (Ret tt,
     mkWorld (pages w) (queue w)
             (log w ++ [LoggerError "Error crawling URL:"])
             (S (done_calls w)) (crawler_queue w)).
Proof. reflexivity. Qed.

Lemma p2_processPage_run cfg res (w : World unit) :
  Part002.processPage cfg None res w
  = (Ret tt,
     mkWorld (insert_page_on_duplicate_key_update (Part002.uri res)
                (Part002.title res) (Part002.description res)
                (Part002.html res) (pages w))
             (p2_queue_after cfg res (queue w))
             (log w ++ [LoggerInfo "Crawled URL:"])
             (S (done_calls w)) (crawler_queue w)).
Proof.
  unfold Part002.processPage, p2_queue_after.
  erewrite bind_ret_run; cycle 1.
  { unfold try_finally, try_catch at 1, bind at 1, transaction,
      try_catch at 1.
    rewrite persist_run. cbv [bind emit modify ret done]. reflexivity. }
  destruct (Part002.res_depth res <? Part002.maxDepth cfg).
  - erewrite settle_one by apply p2_queueUrls_run. reflexivity.
  - rewrite settle_nil. reflexivity.
Qed.

Lemma p2_processPage_error cfg e res (w : World unit) :
  Part002.processPage cfg (Some e) res w
  = (Ret tt,
     mkWorld (pages w) (queue w)
             (log w ++ [LoggerError "Error crawling URL:"])
             (S (done_calls w)) (crawler_queue w)).
Proof. reflexivity. Qed.

(** *** src/WebCrawler.ts *)

Lemma wc_link_loop_run (l : list (option string)) (w : World unit) :
  for_each l
    (fun link =>
       match link with
       | Some href =>
           if Js.truthy (Js.JStr href)
           then spawn (WebCrawler.queueUrls [href])
           else ret tt
       | None => ret tt
       end) w
  = (Ret tt,
     with_queue
       (insert_ignore_queue_all tt
          (List.filter (fun href => Js.truthy (Js.JStr href)) (hrefs l))) w).
Proof.
  revert w. induction l as [|[href|] l IH]; intros w.
  - now destruct w.
  - cbn [for_each]. unfold bind at 1. unfold hrefs. cbn [omap list_omap id].
    cbn [List.filter].
    destruct (Js.truthy (Js.JStr href)).
    + unfold spawn, try_catch. rewrite wc_queueUrls_run by discriminate.
      rewrite IH. reflexivity.
    + unfold ret at 1. rewrite IH. reflexivity.
  - cbn [for_each]. unfold bind at 1, ret at 1. rewrite IH. reflexivity.
Qed.

Lemma wc_next_keeps cfg (w : World unit) :
  (nextUrl <- WebCrawler.getNextUrl cfg ;;
   if Js.truthy nextUrl then crawler_enqueue nextUrl else ret tt) w
  = (Ret tt, wc_next cfg w)
  /\ pages (wc_next cfg w) = pages w
  /\ queue (wc_next cfg w) = queue w
  /\ log (wc_next cfg w) = log w
  /\ done_calls (wc_next cfg w) = done_calls w.
Proof.
  unfold wc_next, WebCrawler.getNextUrl. cbv [bind gets].
  change (Js.truthy Js.JObject) with true. cbn [andb].
  destruct (Js.truthy (Js.array_get
              (WebCrawler.select_uncrawled cfg 1 (queue w))
              (WebCrawler.urlColumnName cfg))) eqn:Ht;
    cbv [ret]; rewrite ?Ht; repeat split; reflexivity.
Qed.

(** The body of the callback between [getConnection] and [release], once
    the url parameter is bound to [key]. *)
Lemma wc_body_run cfg res key (w : World unit) :
  try_finally
    (exec_pages
       (insert_page_on_duplicate_key_update key (WebCrawler.title res)
          (WebCrawler.description res) (WebCrawler.body res)) ;;
     if WebCrawler.res_depth res <? WebCrawler.maxDepth cfg
     then for_each
            (List.filter (WebCrawler.selected (WebCrawler.targetUrl cfg))
               (WebCrawler.anchors res))
            (fun link =>
               match link with
               | Some href =>
                   if Js.truthy (Js.JStr href)
                   then spawn (WebCrawler.queueUrls [href])
                   else ret tt
               | None => ret tt
               end)
     else ret tt)
    (ret tt) w
  = (Ret tt,
     mkWorld (insert_page_on_duplicate_key_update key
                (WebCrawler.title res) (WebCrawler.description res)
                (WebCrawler.body res) (pages w))
             (wc_queue_enqueued cfg res (queue w))
             (log w) (done_calls w) (crawler_queue w)).
Proof.
  unfold try_finally, wc_queue_enqueued, WebCrawler.enqueued_links.
  erewrite bind_ret_run by reflexivity.
  destruct (WebCrawler.res_depth res <? WebCrawler.maxDepth cfg).
  - rewrite wc_link_loop_run. reflexivity.
  - reflexivity.
Qed.

Lemma wc_crawl_run_string driver cfg res u (w : World unit) :
  WebCrawler.uri res = Js.JStr u ->
  WebCrawler.crawl driver cfg None res w
  = (Ret tt,
     wc_next cfg
       (mkWorld (insert_page_on_duplicate_key_update u
                   (WebCrawler.title res) (WebCrawler.description res)
                   (WebCrawler.body res) (pages w))
                (mark_crawled_by_url u (wc_queue_enqueued cfg res (queue w)))
                (log w ++ [ConsoleLog "Crawled"])
                (S (done_calls w)) (crawler_queue w))).
Proof.
  intros Hu. unfold WebCrawler.crawl. rewrite Hu.
  cbn [WebCrawler.bind_url].
  erewrite bind_ret_run; cycle 1.
  { erewrite bind_ret_run by reflexivity.
    erewrite bind_ret_run by apply wc_body_run.
    reflexivity. }
  erewrite bind_ret_run by reflexivity.
  apply wc_next_keeps.
Qed.

(** With a [uri] that is not a string the callback ends at the check of
    its type, or before it, at the statement that binds it. *)
Lemma wc_crawl_run_other driver cfg res (w : World unit) :
  Js.is_string (WebCrawler.uri res) = false ->
  WebCrawler.crawl driver cfg None res w
  = match WebCrawler.bind_url driver (WebCrawler.uri res) with
    | Ok key =>
        (Throw (JsExn "url is not string"),
         mkWorld (insert_page_on_duplicate_key_update key
                    (WebCrawler.title res) (WebCrawler.description res)
                    (WebCrawler.body res) (pages w))
                 (wc_queue_enqueued cfg res (queue w))
                 (log w ++ [ConsoleLog "Crawled"])
                 (done_calls w) (crawler_queue w))
    | Err e =>
        (Throw (SqlExn e),
         mkWorld (pages w) (queue w) (log w ++ [ConsoleLog "Crawled"])
                 (done_calls w) (crawler_queue w))
    end.
Proof.
  intros Hs. unfold WebCrawler.crawl.
  destruct (WebCrawler.bind_url driver (WebCrawler.uri res)) as [key|e].
  - erewrite bind_throw_run; [reflexivity|].
    erewrite bind_ret_run by reflexivity.
    erewrite bind_ret_run by apply wc_body_run.
    destruct (WebCrawler.uri res); try reflexivity; discriminate.
  - erewrite bind_throw_run; [reflexivity|].
    erewrite bind_ret_run by reflexivity.
    erewrite bind_throw_run; [reflexivity|].
    reflexivity.
Qed.

Lemma wc_crawl_error driver cfg e res (w : World unit) :
  WebCrawler.crawl driver cfg (Some e) res w
  = (Ret tt,
     wc_next cfg
       (mkWorld (pages w) (queue w) (log w ++ [ConsoleError e])
                (S (done_calls w)) (crawler_queue w))).
Proof.
  unfold WebCrawler.crawl.
  erewrite bind_ret_run by reflexivity.
  erewrite bind_ret_run by reflexivity.
  apply wc_next_keeps.
Qed.
End CallbackRuns.

(** ** Enqueueing only appends *)

Section Enqueue.
Import Async Sql SqlFacts.
Context {X : Type}.
Implicit Types (t : Table (QueueRow X)) (x : X).

Lemma insert_ignore_queue_all_rows x urls t :
  exists added,
    rows (insert_ignore_queue_all x urls t) = rows t ++ added
    /\ Forall (fun r => q_cols r = x /\ q_is_crawled r = false
                        /\ In (q_url r) urls) added.
Proof.
  revert t. induction urls as [|u urls IH]; intros t.
  - exists []. split; [now rewrite app_nil_r | constructor].
  - rewrite insert_ignore_queue_all_cons.
    destruct (IH (insert_ignore_queue u x t)) as (added & E & F).
    rewrite E. clear E.
    destruct (existsb (queue_has_url u) (rows t)) eqn:Hex.
    + rewrite insert_ignore_queue_present by assumption.
      exists added. split; [reflexivity|].
      eapply Forall_impl; [exact F|]. simpl. intros r (?&?&?). auto.
    + rewrite insert_ignore_queue_absent by assumption. simpl.
      exists (mkQueue (auto_increment t) u false x :: added). split.
      * rewrite <- app_assoc. reflexivity.
      * constructor; [simpl; auto|].
        eapply Forall_impl; [exact F|]. simpl. intros r (?&?&?). auto.
Qed.

Lemma queue_evolves_insert_ignore_all x urls t :
  queue_evolves t (insert_ignore_queue_all x urls t).
Proof.
  destruct (insert_ignore_queue_all_rows x urls t) as (added & E & _).
  exists (rows t), added. split; [exact E|].
  apply Forall2_row_evolves_refl.
Qed.

Lemma queue_wf_insert_ignore_all x urls t :
  queue_wf t -> queue_wf (insert_ignore_queue_all x urls t).
Proof.
  revert t. induction urls as [|u urls IH]; intros t Hwf; [exact Hwf|].
  rewrite insert_ignore_queue_all_cons.
  now apply IH, queue_wf_insert_ignore.
Qed.

(** Every URL handed to the statement has a row afterwards. *)
Lemma insert_ignore_queue_all_has x urls t u :
  In u urls ->
  existsb (queue_has_url u) (rows (insert_ignore_queue_all x urls t)) = true.
Proof.
  revert t. induction urls as [|v urls IH]; intros t; [intros []|].
  rewrite insert_ignore_queue_all_cons.
  destruct (in_dec string_dec u urls) as [Hin|Hnin].
  - intros _. now apply IH.
  - intros [->|Hin]; [|contradiction].
    pose proof (has_url_after_insert_ignore u x t) as Hhas.
    destruct (insert_ignore_queue_all_rows x urls (insert_ignore_queue u x t))
      as (added & E & _).
    rewrite E, existsb_app, Hhas. reflexivity.
Qed.

Lemma mark_crawled_by_ids_nil t : mark_crawled_by_ids [] t = t.
Proof.
  unfold mark_crawled_by_ids. destruct t as [l n]; simpl. f_equal.
  induction l as [|r l IH]; simpl; [reflexivity|]. now rewrite IH.
Qed.

Lemma mark_crawled_by_url_urls u t :
  map q_url (rows (mark_crawled_by_url u t)) = map q_url (rows t).
Proof. apply map_mark_url. Qed.

End Enqueue.

Section MoreRuns.
Import Async Sql SqlFacts.

Lemma p1_createTables_run cfg (w : World Z) :
  exists lg,
    Part001.createTables cfg w
    = (Ret tt,
       mkWorld (pages w)
               (insert_ignore_queue (Part001.targetUrl cfg) 0 (queue w))
               (log w ++ lg) (done_calls w) (crawler_queue w)).
Proof.
  unfold Part001.createTables, create_table_if_not_exists, try_catch, bind,
    ret, try_queue.
  destruct (existsb (queue_has_url (Part001.targetUrl cfg)) (rows (queue w)))
    eqn:Hex.
  - rewrite insert_ignore_queue_present by assumption.
    unfold insert_queue. rewrite Hex. cbn.
    exists [LoggerError "Error creating tables"]. reflexivity.
  - rewrite insert_ignore_queue_absent by assumption.
    unfold insert_queue. rewrite Hex. cbn.
    exists []. now rewrite app_nil_r.
Qed.

Lemma wc_getNextUrl_reads_only cfg (w : World unit) :
  snd (WebCrawler.getNextUrl cfg w) = w.
Proof.
  unfold WebCrawler.getNextUrl. cbv [bind gets].
  change (Js.truthy Js.JObject) with true. cbn [andb].
  destruct (Js.truthy _); reflexivity.
Qed.

(** Under a name that names nothing in an array the property read off
    the row array does not exist, and [getNextUrl] answers [null]. *)
Lemma array_get_nothing (a : list (gmap string Js.Value)) (k : string) :
  Js.array_key k = false -> Js.array_get a k = Js.JUndefined.
Proof.
  unfold Js.array_key, Js.array_get. intros H.
  apply orb_false_iff in H as [H Hinh].
  apply orb_false_iff in H as [Hlen Hidx].
  rewrite Hlen, Hinh. now destruct (Js.index_of_string k).
Qed.

(** Under the name of a member that arrays inherit, it is that member. *)
Lemma array_get_inherited (a : list (gmap string Js.Value)) (k : string) :
  Js.inherited (Js.array_prototype_members ++ Js.object_prototype_members) k
  = true ->
  Js.array_get a k = Js.JObject.
Proof.
  intros H. unfold Js.array_get. rewrite H.
  unfold Js.inherited in H. apply existsb_exists in H as (x & Hin & E).
  apply String.eqb_eq in E. subst x.
  cbn in Hin.
  repeat (destruct Hin as [<-|Hin]; [reflexivity|]). destruct Hin.
Qed.

Lemma wc_getNextUrl_inherited cfg (w : World unit) :
  Js.inherited (Js.array_prototype_members ++ Js.object_prototype_members)
    (WebCrawler.urlColumnName cfg) = true ->
  WebCrawler.getNextUrl cfg w = (Ret Js.JObject, w).
Proof.
  intros Hk. unfold WebCrawler.getNextUrl. cbv [bind gets].
  now rewrite array_get_inherited by exact Hk.
Qed.

Lemma wc_getNextUrl_nothing cfg (w : World unit) :
  Js.array_key (WebCrawler.urlColumnName cfg) = false ->
  WebCrawler.getNextUrl cfg w = (Ret Js.JNull, w).
Proof.
  intros Hk. unfold WebCrawler.getNextUrl. cbv [bind gets].
  now rewrite array_get_nothing by exact Hk.
Qed.

Lemma wc_getNextUrl_null cfg (w : World unit) :
  WebCrawler.urlColumnName cfg = "url" ->
  WebCrawler.getNextUrl cfg w = (Ret Js.JNull, w).
Proof. intros Hc. apply wc_getNextUrl_nothing. now rewrite Hc. Qed.

Lemma wc_next_nothing cfg (w : World unit) :
  Js.array_key (WebCrawler.urlColumnName cfg) = false -> wc_next cfg w = w.
Proof.
  intros Hk. unfold wc_next, bind. now rewrite wc_getNextUrl_nothing.
Qed.
End MoreRuns.

(** ** The claim step of part_001 *)

Section Dequeue.
Import Async Sql SqlFacts Part001.

Lemma row_leb_spec (a b : QueueRow Z) :
  row_leb a b = true
  <-> depth a < depth b \/ (depth a = depth b /\ q_id a <= q_id b).
Proof.
  unfold row_leb.
  rewrite orb_true_iff, andb_true_iff, Z.ltb_lt, Z.eqb_eq, Z.leb_le.
  tauto.
Qed.

Lemma row_leb_refl (a : QueueRow Z) : row_leb a a = true.
Proof. apply row_leb_spec. lia. Qed.

Lemma row_leb_total (a b : QueueRow Z) :
  row_leb a b = false -> row_leb b a = true.
Proof.
  intros H. apply row_leb_spec.
  destruct (row_leb a b) eqn:E; [discriminate|].
  assert (Hn : ~ (depth a < depth b \/ (depth a = depth b /\ q_id a <= q_id b)))
    by (rewrite <- row_leb_spec; congruence).
  lia.
Qed.

Lemma row_leb_trans (a b c : QueueRow Z) :
  row_leb a b = true -> row_leb b c = true -> row_leb a c = true.
Proof. rewrite !row_leb_spec. lia. Qed.

Lemma insert_sorted_In (r x : QueueRow Z) l :
  In x (insert_sorted r l) <-> x = r \/ In x l.
Proof.
  induction l as [|h t IH]; simpl.
  - intuition congruence.
  - destruct (row_leb r h); simpl; [intuition congruence|].
    rewrite IH. intuition congruence.
Qed.

Lemma order_by_depth_id_In (x : QueueRow Z) l :
  In x (order_by_depth_id l) <-> In x l.
Proof.
  induction l as [|h t IH]; simpl; [tauto|].
  rewrite insert_sorted_In, IH. intuition congruence.
Qed.

Lemma insert_sorted_sorted r l : sorted l -> sorted (insert_sorted r l).
Proof.
  induction l as [|h t IH]; simpl.
  - intros _. split; [intros x []| exact I].
  - intros [Hh Ht]. destruct (row_leb r h) eqn:E; simpl.
    + split; [|split; assumption].
      intros x [<-|Hx]; [assumption|].
      eapply row_leb_trans; [exact E|]. now apply Hh.
    + split; [|now apply IH].
      intros x Hx. apply insert_sorted_In in Hx as [->|Hx].
      * now apply row_leb_total.
      * now apply Hh.
Qed.

Lemma order_by_depth_id_sorted l : sorted (order_by_depth_id l).
Proof.
  induction l as [|h t IH]; simpl; [exact I|].
  now apply insert_sorted_sorted.
Qed.

(** The SELECT picks nothing when no row is eligible, and otherwise the
    eligible row that is first by depth, then by id. *)
Lemma next_rows_spec max_depth (t : Table (QueueRow Z)) :
  match next_rows max_depth 1 t with
  | [] => forall r, In r (rows t) -> eligible max_depth r = false
  | [r] =>
      In r (rows t) /\ eligible max_depth r = true
      /\ forall r', In r' (rows t) -> eligible max_depth r' = true ->
           depth r < depth r' \/ (depth r = depth r' /\ q_id r <= q_id r')
  | _ => False
  end.
Proof.
  unfold next_rows.
  pose proof (order_by_depth_id_sorted
                (List.filter (eligible max_depth) (rows t))) as Hs.
  pose proof (fun x => order_by_depth_id_In x
                (List.filter (eligible max_depth) (rows t))) as Hin.
  destruct (order_by_depth_id (List.filter (eligible max_depth) (rows t)))
    as [|h tl]; simpl.
  - intros r Hr. destruct (eligible max_depth r) eqn:E; [|reflexivity].
    exfalso. apply (Hin r). apply filter_In. now split.
  - destruct Hs as [Hh _].
    assert (Hh' : In h (List.filter (eligible max_depth) (rows t)))
      by (apply Hin; now left).
    apply filter_In in Hh' as [Hrow Hel].
    repeat split; [assumption..|].
    intros r' Hr' Hel'. apply row_leb_spec.
    assert (Hr'' : In r' (h :: tl)) by (apply Hin, filter_In; now split).
    destruct Hr'' as [<-|Hr'']; [apply row_leb_refl | now apply Hh].
Qed.

Lemma next_rows_length max_depth (t : Table (QueueRow Z)) :
  (length (next_rows max_depth 1 t) <= 1)%nat.
Proof.
  pose proof (next_rows_spec max_depth t) as H.
  destruct (next_rows max_depth 1 t) as [|r [|r' l]]; simpl;
    first [lia | destruct H].
Qed.

Lemma get_id_of_row (i : Z) :
  Js.get ({[ "id" := Js.JNum i ]} : gmap string Js.Value) "id" = Js.JNum i.
Proof. unfold Js.get. now rewrite lookup_singleton_eq. Qed.

(** A row object that holds [id] alone has no string to give. *)
Lemma get_of_id_row_not_string (i : Z) (k : string) :
  Js.is_string (Js.get ({[ "id" := Js.JNum i ]} : gmap string Js.Value) k)
  = false.
Proof.
  unfold Js.get. destruct (decide (k = "id")) as [->|Hne].
  - now rewrite lookup_singleton_eq.
  - rewrite lookup_singleton_ne by congruence.
    now destruct (Js.inherited Js.object_prototype_members k).
Qed.

(** Under another name than [id] it gives what every object inherits
    there: an object, or nothing. *)
Lemma get_of_id_row_other (i : Z) (k : string) :
  k <> "id" ->
  Js.get ({[ "id" := Js.JNum i ]} : gmap string Js.Value) k
  = if Js.inherited Js.object_prototype_members k
    then Js.JObject else Js.JUndefined.
Proof.
  intros Hne. unfold Js.get. now rewrite lookup_singleton_ne by congruence.
Qed.

Lemma get_of_id_row_nothing (i : Z) (k : string) :
  row_key k = false ->
  Js.get ({[ "id" := Js.JNum i ]} : gmap string Js.Value) k = Js.JUndefined.
Proof.
  unfold row_key. intros H. apply orb_false_iff in H as [Hid Hinh].
  rewrite get_of_id_row_other, Hinh; [reflexivity|].
  intros ->. discriminate.
Qed.

Lemma selected_ids max_depth limit (t : Table (QueueRow Z)) :
  map (fun row => Js.get row "id") (select_next_ids max_depth limit t)
  = map (fun r => Js.JNum (q_id r)) (next_rows max_depth limit t).
Proof.
  unfold select_next_ids. rewrite map_map. apply map_ext.
  intros r. apply get_id_of_row.
Qed.

Lemma first_row_get_not_string max_depth limit (t : Table (QueueRow Z)) k :
  Js.is_string (first_row_get (select_next_ids max_depth limit t) k) = false.
Proof.
  unfold select_next_ids.
  destruct (next_rows max_depth limit t) as [|r l]; simpl; [reflexivity|].
  apply get_of_id_row_not_string.
Qed.

Lemma p1_dequeueUrl_run cfg (w : World Z) :
  dequeueUrl cfg w
  = let rows := select_next_ids (maxDepth cfg) 1 (queue w) in
    match rows with
    | [] =>
        (Ret Js.JUndefined,
         mkWorld (pages w) (queue w) (log w ++ [ConsoleRows rows])
                 (done_calls w) (crawler_queue w))
    | _ :: _ =>
        (Ret (first_row_get rows (urlColumnName cfg)),
         mkWorld (pages w)
                 (mark_crawled_by_ids
                    (map (fun row => Js.get row "id") rows) (queue w))
                 (log w ++ [ConsoleRows rows])
                 (done_calls w) (crawler_queue w))
    end.
Proof.
  unfold dequeueUrl, try_catch.
  erewrite bind_ret_run by reflexivity.
  erewrite bind_ret_run by reflexivity.
  destruct (select_next_ids (maxDepth cfg) 1 (queue w)); reflexivity.
Qed.

(** The two steps of the state machine, taken back to back, are
    [dequeueUrl]. *)
Lemma p1_steps_are_dequeueUrl cfg (w : World Z) :
  exists marked v w',
    (let (pc, w1) := step cfg BeforeSelect w in step cfg pc w1)
    = (Finished marked v, w')
    /\ dequeueUrl cfg w = (Ret v, w').
Proof.
  rewrite p1_dequeueUrl_run. cbn [step]. unfold emit, modify. cbn [snd].
  destruct (select_next_ids (maxDepth cfg) 1 (queue w)) as [|r l] eqn:E.
  - cbn. eauto.
  - cbn. eauto.
Qed.

Lemma id_in_singleton (i : Z) (r : QueueRow Z) :
  id_in [Js.JNum i] r = (q_id r =? i).
Proof.
  unfold id_in. destruct (Z.eqb_spec (q_id r) i) as [->|Hne].
  - apply bool_decide_eq_true. apply list_elem_of_singleton. reflexivity.
  - apply bool_decide_eq_false. intros H.
    apply list_elem_of_singleton in H. congruence.
Qed.

(** Once marked, a row is out of reach of the SELECT. *)
Lemma marked_not_selected max_depth limit ids (t : Table (QueueRow Z)) r' :
  In r' (next_rows max_depth limit (mark_crawled_by_ids ids t)) ->
  Js.JNum (q_id r') ∉ ids.
Proof.
  unfold next_rows, mark_crawled_by_ids; simpl. intros Hin.
  apply list_elem_of_In, elem_of_take in Hin as (i & Hin & _).
  apply list_elem_of_lookup_2, list_elem_of_In in Hin.
  apply order_by_depth_id_In, filter_In in Hin as [Hin Hel].
  apply in_map_iff in Hin as (r0 & Hr0 & _).
  unfold id_in in Hr0.
  destruct (bool_decide (Js.JNum (q_id r0) ∈ ids)) eqn:Hb.
  - subst r'. unfold eligible, set_crawled in Hel. simpl in Hel. discriminate.
  - subst r'. now apply bool_decide_eq_false in Hb.
Qed.

Lemma Part001_dequeueUrl_queue cfg (w : World Z) :
  queue (snd (dequeueUrl cfg w))
  = mark_crawled_by_ids
      (map (fun r => Js.JNum (q_id r))
           (next_rows (maxDepth cfg) 1 (queue w)))
      (queue w).
Proof.
  rewrite p1_dequeueUrl_run.
  pose proof (selected_ids (maxDepth cfg) 1 (queue w)) as Hids.
  unfold select_next_ids in *.
  destruct (next_rows (maxDepth cfg) 1 (queue w)) as [|r l]; cbn [map] in *.
  - cbn [snd queue]. now rewrite mark_crawled_by_ids_nil.
  - cbn [snd queue]. now rewrite Hids.
Qed.
End Dequeue.

(** ** The claims *)

Section ClaimStep.
Import Async Sql SqlFacts Part001.

(** What [dequeueUrl] gets right: with no eligible row it answers
    [undefined], touches no row and logs no error; otherwise it marks the
    eligible row that is first by depth, then by id. *)
Lemma p1_dequeueUrl_claims_first cfg (w : World Z) :
  match next_rows (maxDepth cfg) 1 (queue w) with
  | [] =>
      (forall r, In r (rows (queue w)) -> eligible (maxDepth cfg) r = false)
      /\ dequeueUrl cfg w
         = (Ret Js.JUndefined,
            mkWorld (pages w) (queue w) (log w ++ [ConsoleRows []])
                    (done_calls w) (crawler_queue w))
  | r :: _ =>
      In r (rows (queue w)) /\ eligible (maxDepth cfg) r = true
      /\ (forall r', In r' (rows (queue w)) ->
            eligible (maxDepth cfg) r' = true ->
            depth r < depth r' \/ (depth r = depth r' /\ q_id r <= q_id r'))
      /\ queue (snd (dequeueUrl cfg w))
         = mark_crawled_by_ids [Js.JNum (q_id r)] (queue w)
  end.
Proof.
  pose proof (next_rows_spec (maxDepth cfg) (queue w)) as Hspec.
  rewrite p1_dequeueUrl_run.
  pose proof (selected_ids (maxDepth cfg) 1 (queue w)) as Hids.
  unfold select_next_ids in *.
  destruct (next_rows (maxDepth cfg) 1 (queue w)) as [|r [|r' l]];
    [| |destruct Hspec].
  - split; [exact Hspec | reflexivity].
  - destruct Hspec as (H1 & H2 & H3).
    split; [exact H1|]. split; [exact H2|]. split; [exact H3|].
    cbn [map] in *. cbn [snd queue]. now rewrite Hids.
Qed.

(** C1 (the defect). [dequeueUrl] selects the column [id] only, so the
    object it reads the URL from has no such property: for every
    configuration and every frontier it marks the row it selected and
    returns a value that is not a string; on the frontier that holds the
    unclaimed seed it marks the seed and returns [undefined]. *)
Theorem dequeueUrl_returns_no_url :
  (forall cfg (w : World Z),
     exists v w',
       dequeueUrl cfg w = (Ret v, w')
       /\ Js.is_string v = false
       /\ queue w'
          = mark_crawled_by_ids
              (map (fun r => Js.JNum (q_id r))
                   (next_rows (maxDepth cfg) 1 (queue w)))
              (queue w))
  /\ dequeueUrl Sample.cfg1 Sample.seeded1
     = (Ret Js.JUndefined,
        mkWorld (pages Sample.claimed1) (queue Sample.claimed1)
                [ConsoleRows [{[ "id" := Js.JNum 1 ]}]] 0 []).
Proof.
  split; [|vm_compute; reflexivity].
  intros cfg w. rewrite p1_dequeueUrl_run.
  pose proof (selected_ids (maxDepth cfg) 1 (queue w)) as Hids.
  pose proof (first_row_get_not_string (maxDepth cfg) 1 (queue w)
                (urlColumnName cfg)) as Hns.
  unfold select_next_ids in *.
  destruct (next_rows (maxDepth cfg) 1 (queue w)) as [|r l]; cbn [map] in *.
  - eexists _, _. split; [reflexivity|]. split; [reflexivity|].
    cbn [queue]. now rewrite mark_crawled_by_ids_nil.
  - eexists _, _. split; [reflexivity|]. split; [exact Hns|].
    cbn [queue]. now rewrite Hids.
Qed.

(** One invocation taken alone: it marks the ids of the rows its SELECT
    picked. *)
Lemma p1_two_steps cfg (w : World Z) :
  exists v w2,
    (let (pc, w1) := step cfg BeforeSelect w in step cfg pc w1)
    = (Finished (map (fun r => Js.JNum (q_id r))
                     (next_rows (maxDepth cfg) 1 (queue w))) v, w2)
    /\ queue w2
       = mark_crawled_by_ids
           (map (fun r => Js.JNum (q_id r))
                (next_rows (maxDepth cfg) 1 (queue w)))
           (queue w).
Proof.
  cbn [step]. unfold emit, modify. cbn [snd].
  pose proof (selected_ids (maxDepth cfg) 1 (queue w)) as Hids.
  destruct (select_next_ids (maxDepth cfg) 1 (queue w)) as [|ra la].
  - cbn in Hids. rewrite <- Hids. cbn.
    eexists _, _. split; [reflexivity|].
    cbn [queue]. now rewrite mark_crawled_by_ids_nil.
  - cbn [map length Nat.eqb] in *. cbn [step]. rewrite <- Hids.
    eexists _, _. split; reflexivity.
Qed.

(** Run one after the other, two invocations never mark the same row. *)
Lemma p1_sequential_claims_differ cfg (w : World Z) :
  exists ma va mb vb w',
    run cfg [true; true; false; false] BeforeSelect BeforeSelect w
    = (Finished ma va, Finished mb vb, w')
    /\ forall v, v ∈ ma -> v ∉ mb.
Proof.
  cbn [run].
  destruct (p1_two_steps cfg w) as (va & wa & Ea & Qa).
  destruct (step cfg BeforeSelect w) as [pa w1]. rewrite Ea.
  destruct (p1_two_steps cfg wa) as (vb & wb & Eb & Qb).
  destruct (step cfg BeforeSelect wa) as [pb w3]. rewrite Eb.
  eexists _, _, _, _, _. split; [reflexivity|].
  intros v Hv Hv'. rewrite Qa in Hv'.
  apply list_elem_of_In, in_map_iff in Hv' as (r' & <- & Hr').
  exact (marked_not_selected _ _ _ _ r' Hr' Hv).
Qed.

(** C2 (the defect). The SELECT and the UPDATE of [dequeueUrl] are two
    statements with an [await] between them, outside any transaction.
    When two invocations take turns (SELECT, SELECT, UPDATE, UPDATE) both
    read the same first eligible row, both mark it and both return the
    same value; on the frontier that holds the unclaimed seed both mark
    row 1.  [getNextUrl] of src/WebCrawler.ts marks nothing at all: a
    second call reads what the first one read. *)
Theorem claim_step_is_not_atomic :
  (forall cfg (w : World Z),
     exists v w',
       run cfg [true; false; true; false] BeforeSelect BeforeSelect w
       = (Finished (map (fun r => Js.JNum (q_id r))
                        (next_rows (maxDepth cfg) 1 (queue w))) v,
          Finished (map (fun r => Js.JNum (q_id r))
                        (next_rows (maxDepth cfg) 1 (queue w))) v,
          w'))
  /\ (exists w',
        run Sample.cfg1 [true; false; true; false]
            BeforeSelect BeforeSelect Sample.seeded1
        = (Finished [Js.JNum 1] Js.JUndefined,
           Finished [Js.JNum 1] Js.JUndefined, w')
        /\ queue w' = queue Sample.claimed1)
  /\ (forall cfg (w : World unit),
        snd (WebCrawler.getNextUrl cfg w) = w
        /\ WebCrawler.getNextUrl cfg (snd (WebCrawler.getNextUrl cfg w))
           = WebCrawler.getNextUrl cfg w).
Proof.
  split; [|split].
  - intros cfg w. cbn [run step]. unfold emit, modify. cbn [snd queue].
    pose proof (selected_ids (maxDepth cfg) 1 (queue w)) as Hids.
    destruct (select_next_ids (maxDepth cfg) 1 (queue w)) as [|ra la] eqn:Ea.
    + cbn in Hids. rewrite <- Hids. cbn. rewrite Ea. cbn. eauto.
    + cbn [map length Nat.eqb] in *. cbn [queue]. rewrite Ea.
      cbn [map length Nat.eqb step]. rewrite <- Hids. eauto.
  - eexists. split; vm_compute; reflexivity.
  - intros cfg w. rewrite wc_getNextUrl_reads_only. split; reflexivity.
Qed.

(** [getNextUrl] of src/WebCrawler.ts only reads: it marks nothing, so
    nothing keeps a second call from reading the same row. *)
Lemma wc_getNextUrl_claims_nothing cfg (w : World unit) :
  queue (snd (WebCrawler.getNextUrl cfg w)) = queue w.
Proof. now rewrite wc_getNextUrl_reads_only. Qed.

(** C4 (the defect). [queueUrls] of part_001 writes the literal 0 into
    the depth column: whatever the depth of the page, every row the
    callback adds to the frontier has depth 0; for the seed page at depth
    0 the two links in scope are stored at depth 0, not at depth 1. *)
Theorem processPage_enqueues_at_depth_zero :
  (forall cfg res (w : World Z),
     exists added,
       rows (queue (snd (processPage cfg None res w)))
       = rows (mark_crawled_by_url (uri res) (queue w)) ++ added
       /\ Forall (fun r => depth r = 0) added)
  /\ rows (queue (snd (processPage Sample.cfg1 None Sample.page1
                         Sample.claimed1)))
     = [mkQueue 1 Sample.seed true 0;
        mkQueue 2 "https://example.com/a" false 0;
        mkQueue 3 "https://example.com/b" false 0].
Proof.
  split; [|vm_compute; reflexivity].
  intros cfg res w.
  destruct (p1_processPage_run cfg res w) as [lg ->]. cbn [snd queue].
  unfold p1_queue_after.
  destruct (res_depth res <? maxDepth cfg).
  - destruct (insert_ignore_queue_all_rows 0
                (extract_links (targetUrl cfg) (anchors res))
                (mark_crawled_by_url (uri res) (queue w)))
      as (added & E & F).
    exists added. split; [exact E|].
    eapply Forall_impl; [exact F|]. intros r (H & _). exact H.
  - exists []. split; [now rewrite app_nil_r | constructor].
Qed.
End ClaimStep.

Section FrontierClaims.
Import Async Sql SqlFacts.


Lemma with_queue_same {X : Type} (f : Table (QueueRow X) -> Table (QueueRow X))
    (w : World X) :
  f (queue w) = queue w -> with_queue f w = w.
Proof. intros E. unfold with_queue. rewrite E. apply world_eta. Qed.





Lemma queue_wf_sample (X : Type) (x : X) :
  queue_wf (mkTable [mkQueue 1 Sample.seed false x] 2).
Proof.
  unfold queue_wf; simpl. repeat split.
  - apply NoDup_singleton.
  - apply NoDup_singleton.
  - repeat constructor.
Qed.


(** Seeding in part_002 and in src/WebCrawler.ts is [start], which hands
    the target to [queueUrls]: a second [start] changes nothing. *)
Lemma seeding_again :
  (forall cfg (w : World unit),
     Part002.start cfg (snd (Part002.start cfg w))
     = (Ret tt, snd (Part002.start cfg w)))
  /\ (forall cfg (w : World unit),
        WebCrawler.start cfg (snd (WebCrawler.start cfg w))
        = (Ret tt, snd (WebCrawler.start cfg w))).
Proof.
  split; intros cfg w.
  - rewrite !p2_start_run.
    cbn [snd]. f_equal. apply with_queue_same. cbn [with_queue queue].
    apply (insert_ignore_queue_twice (Part002.targetUrl cfg) tt tt).
  - rewrite !wc_start_run.
    cbn [snd]. f_equal. apply with_queue_same. cbn [with_queue queue].
    apply (insert_ignore_queue_twice (WebCrawler.targetUrl cfg) tt tt).
Qed.

(** Seeding in part_001 is the INSERT of [createTables], not
    [queueUrls]: run on a frontier that has the target already, it leaves
    the frontier as it is and raises nothing, but it does log the
    engine's complaint as an error. *)
Lemma p1_createTables_again cfg (w : World Z) :
  existsb (queue_has_url (Part001.targetUrl cfg)) (rows (queue w)) = true ->
  Part001.createTables cfg w
  = (Ret tt,
     mkWorld (pages w) (queue w)
             (log w ++ [LoggerError "Error creating tables"])
             (done_calls w) (crawler_queue w)).
Proof.
  intros Hex.
  unfold Part001.createTables, create_table_if_not_exists, try_catch, bind,
    ret, try_queue, insert_queue.
  rewrite Hex. reflexivity.
Qed.

(** The unique key, the primary key and the counter survive every
    callback, so the hypotheses of C3 and C5 hold throughout a crawl
    that starts from empty tables. *)
Lemma queue_wf_after_processPage cfg1 res1 (t1 : Table (QueueRow Z))
    cfg2 res2 (t2 : Table (QueueRow unit)) cfg0 res0 u0 :
  (queue_wf t1 -> queue_wf (p1_queue_after cfg1 res1 t1))
  /\ (queue_wf t2 -> queue_wf (p2_queue_after cfg2 res2 t2))
  /\ (queue_wf t2 ->
      queue_wf (mark_crawled_by_url u0 (wc_queue_enqueued cfg0 res0 t2))).
Proof.
  unfold p1_queue_after, p2_queue_after, wc_queue_enqueued.
  split; [|split]; intros Hwf.
  - destruct (_ <? _); [apply queue_wf_insert_ignore_all|];
      now apply queue_wf_mark.
  - destruct (_ <? _); [apply queue_wf_insert_ignore_all|];
      now apply queue_wf_mark.
  - apply queue_wf_mark.
    destruct (_ <? _); [now apply queue_wf_insert_ignore_all | exact Hwf].
Qed.

(** *** Rows are kept *)

Lemma queue_evolves_p1_queue_after cfg res t :
  queue_evolves t (p1_queue_after cfg res t).
Proof.
  unfold p1_queue_after.
  destruct (Part001.res_depth res <? Part001.maxDepth cfg).
  - eapply queue_evolves_trans;
      [apply queue_evolves_mark | apply queue_evolves_insert_ignore_all].
  - apply queue_evolves_mark.
Qed.

Lemma queue_evolves_p2_queue_after cfg res t :
  queue_evolves t (p2_queue_after cfg res t).
Proof.
  unfold p2_queue_after.
  destruct (Part002.res_depth res <? Part002.maxDepth cfg).
  - eapply queue_evolves_trans;
      [apply queue_evolves_mark | apply queue_evolves_insert_ignore_all].
  - apply queue_evolves_mark.
Qed.

Lemma p1_queueUrls_queue_evolves urls (w : World Z) :
  queue_evolves (queue w) (queue (snd (Part001.queueUrls urls w))).
Proof.
  destruct (p1_queueUrls_run urls w) as [lg ->].
  apply queue_evolves_insert_ignore_all.
Qed.

Lemma queue_wc_next cfg (w : World unit) : queue (wc_next cfg w) = queue w.
Proof. apply wc_next_keeps. Qed.

Lemma wc_crawl_at_limit cfg res (w : World unit) :
  WebCrawler.maxDepth cfg <= WebCrawler.res_depth res ->
  wc_queue_enqueued cfg res (queue w) = queue w.
Proof.
  intros Hd. unfold wc_queue_enqueued.
  now rewrite (proj2 (Z.ltb_ge _ _)) by exact Hd.
Qed.

(** C9. No frontier operation deletes a row or changes the id, the url
    or the depth of a row: after each of them the rows that were there
    are still there, in place, at most with their flag raised from false
    to true, and new rows come behind them.  The operations are the
    seeding of part_001 ([createTables]), [queueUrls], the two claim
    steps ([dequeueUrl], [getNextUrl]), [markUrlAsCrawled], and the
    callbacks, which mark and enqueue.  Of src/WebCrawler.ts, whose
    [queueUrls] writes the urls into the text of its statement, this is
    stated for urls that the quoted literal denotes, and of its callback
    where it enqueues nothing: after a fetch error, and for a page at
    the depth limit. *)
Theorem frontier_rows_preserved :
  (forall cfg (w : World Z),
     queue_evolves (queue w) (queue (snd (Part001.createTables cfg w))))
  /\ (forall urls (w : World Z),
        queue_evolves (queue w) (queue (snd (Part001.queueUrls urls w))))
  /\ (forall cfg (w : World Z),
        queue_evolves (queue w) (queue (snd (Part001.dequeueUrl cfg w))))
  /\ (forall cfg error res (w : World Z),
        queue_evolves (queue w)
          (queue (snd (Part001.processPage cfg error res w))))
  /\ (forall urls (w : World unit),
        queue_evolves (queue w) (queue (snd (Part002.queueUrls urls w))))
  /\ (forall cfg error res (w : World unit),
        queue_evolves (queue w)
          (queue (snd (Part002.processPage cfg error res w))))
  /\ (forall urls (w : World unit),
        forallb WebCrawler.sql_plain urls = true ->
        queue_evolves (queue w) (queue (snd (WebCrawler.queueUrls urls w))))
  /\ (forall cfg (w : World unit),
        queue_evolves (queue w) (queue (snd (WebCrawler.getNextUrl cfg w))))
  /\ (forall url (w : World unit),
        queue_evolves (queue w)
          (queue (snd (WebCrawler.markUrlAsCrawled url w))))
  /\ (forall driver cfg e res (w : World unit),
        queue (snd (WebCrawler.crawl driver cfg (Some e) res w)) = queue w)
  /\ (forall driver cfg res (w : World unit),
        WebCrawler.maxDepth cfg <= WebCrawler.res_depth res ->
        queue_evolves (queue w)
          (queue (snd (WebCrawler.crawl driver cfg None res w)))).
Proof.
  repeat split.
  - intros cfg w. destruct (p1_createTables_run cfg w) as [lg ->].
    apply queue_evolves_insert_ignore.
  - apply p1_queueUrls_queue_evolves.
  - intros cfg w. rewrite Part001_dequeueUrl_queue.
    apply queue_evolves_mark.
  - intros cfg [e|] res w.
    + rewrite p1_processPage_error. apply queue_evolves_refl.
    + destruct (p1_processPage_run cfg res w) as [lg ->].
      apply queue_evolves_p1_queue_after.
  - intros urls w. rewrite p2_queueUrls_run.
    apply queue_evolves_insert_ignore_all.
  - intros cfg [e|] res w.
    + rewrite p2_processPage_error. apply queue_evolves_refl.
    + rewrite p2_processPage_run. apply queue_evolves_p2_queue_after.
  - intros urls w _. destruct urls as [|u urls].
    + apply queue_evolves_refl.
    + rewrite wc_queueUrls_run by discriminate.
      apply queue_evolves_insert_ignore_all.
  - intros cfg w. rewrite wc_getNextUrl_reads_only. apply queue_evolves_refl.
  - intros url w. apply queue_evolves_mark.
  - intros driver cfg e res w. rewrite wc_crawl_error. cbn [snd].
    now rewrite queue_wc_next.
  - intros driver cfg res w Hd.
    destruct (WebCrawler.uri res) as [| |b|n|s|] eqn:Hu.
    all: try (rewrite wc_crawl_run_other by (rewrite Hu; reflexivity);
              destruct (WebCrawler.bind_url driver (WebCrawler.uri res));
              cbn [snd queue];
              rewrite ?(wc_crawl_at_limit cfg res w Hd);
              apply queue_evolves_refl).
    rewrite (wc_crawl_run_string driver cfg res s w Hu).
    cbn [snd]. rewrite queue_wc_next. cbn [queue].
    rewrite (wc_crawl_at_limit cfg res w Hd).
    apply queue_evolves_mark.
Qed.

Lemma frontier_rows_preserved_witness :
  queue_evolves (queue Sample.seeded2)
    (queue (snd (WebCrawler.queueUrls ["https://example.com/a"]
                   Sample.seeded2)))
  /\ queue_evolves (queue Sample.seeded2)
       (queue (snd (WebCrawler.crawl Sample.driver42 Sample.cfg0 None
                      SampleMore.page0_at_limit Sample.seeded2))).
Proof.
  split.
  - apply (proj1 (proj2 (proj2 (proj2 (proj2 (proj2
             (proj2 frontier_rows_preserved))))))
             ["https://example.com/a"] Sample.seeded2).
    reflexivity.
  - apply (proj2 (proj2 (proj2 (proj2 (proj2 (proj2 (proj2 (proj2 (proj2
             (proj2 frontier_rows_preserved))))))))) Sample.driver42
             Sample.cfg0 SampleMore.page0_at_limit Sample.seeded2).
    cbn. lia.
Defined.
End FrontierClaims.

Section PageStoreClaims.
Import Async Sql SqlFacts.

Lemma upserted_upsert u title d html (t : Table PageRow) :
  page_wf t ->
  upserted u title d html t
    (insert_page_on_duplicate_key_update u title d html t).
Proof.
  intros Hwf. unfold upserted. repeat split.
  - intros Hs. apply select_page_nil_iff in Hs.
    now rewrite upsert_absent.
  - intros Hs.
    destruct (existsb (page_has_url u) (rows t)) eqn:Hex.
    + now rewrite upsert_present.
    + apply select_page_nil_iff in Hex. contradiction.
  - now apply select_after_upsert.
Qed.

Lemma persisted_upsert u title d html (t : Table PageRow) :
  persisted u title d html
    (insert_page_on_duplicate_key_update u title d html t).
Proof.
  unfold persisted.
  destruct (existsb (page_has_url u) (rows t)) eqn:Hex.
  - rewrite upsert_present by assumption.
    apply existsb_exists in Hex as (r & Hin & Hr).
    exists (p_id r). unfold update_page; simpl.
    apply in_map_iff. exists r. split; [|assumption]. rewrite Hr.
    apply page_has_url_iff in Hr. unfold set_page_fields. now rewrite Hr.
  - rewrite upsert_absent by assumption. exists (auto_increment t). simpl.
    apply in_or_app. right. now left.
Qed.

Lemma pages_wc_next cfg (w : World unit) : pages (wc_next cfg w) = pages w.
Proof. apply wc_next_keeps. Qed.

(** C5. The page store upsert.  On a page table that respects its unique
    key, the persist step of the callback puts a new row behind the others
    when the URL has none, overwrites title, description and raw content
    in place when it has one, and leaves exactly one row for the URL with
    the values just written; run a second time on the same response it
    leaves the rows of the page table as the first run left them.  This
    holds for [processPage] of part_002 (SELECT, then UPDATE or INSERT,
    in one transaction), for [processPage] of part_001 (the same without
    the transaction) and for [crawl] of src/WebCrawler.ts (INSERT ... ON
    DUPLICATE KEY UPDATE, for a [uri] that is a string). *)
Theorem page_upsert_idempotent :
  (forall cfg res (w : World unit),
     page_wf (pages w) ->
     let once := snd (Part002.processPage cfg None res w) in
     let twice := snd (Part002.processPage cfg None res once) in
     upserted (Part002.uri res) (Part002.title res)
       (Part002.description res) (Part002.html res) (pages w) (pages once)
     /\ rows (pages twice) = rows (pages once))
  /\ (forall cfg res (w : World Z),
        page_wf (pages w) ->
        let once := snd (Part001.processPage cfg None res w) in
        let twice := snd (Part001.processPage cfg None res once) in
        upserted (Part001.uri res) (Part001.title res)
          (Part001.description res) (Part001.html res) (pages w) (pages once)
        /\ rows (pages twice) = rows (pages once))
  /\ (forall driver cfg res u (w : World unit),
        page_wf (pages w) -> WebCrawler.uri res = Js.JStr u ->
        let once := snd (WebCrawler.crawl driver cfg None res w) in
        let twice := snd (WebCrawler.crawl driver cfg None res once) in
        upserted u (WebCrawler.title res) (WebCrawler.description res)
          (WebCrawler.body res) (pages w) (pages once)
        /\ rows (pages twice) = rows (pages once)).
Proof.
  split; [|split].
  - intros cfg res w Hwf. cbv zeta. rewrite !p2_processPage_run.
    cbn [snd pages].
    split; [now apply upserted_upsert | apply upsert_twice].
  - intros cfg res w Hwf. cbv zeta.
    destruct (p1_processPage_run cfg res w) as [lg ->]. cbn [snd].
    match goal with |- context [Part001.processPage cfg None res ?w'] =>
      destruct (p1_processPage_run cfg res w') as [lg' ->] end.
    cbn [snd pages].
    split; [now apply upserted_upsert | apply upsert_twice].
  - intros driver cfg res u w Hwf Hu. cbv zeta.
    rewrite !(wc_crawl_run_string driver cfg res u) by exact Hu.
    cbn [snd]. repeat (rewrite pages_wc_next; cbn [pages]).
    split; [now apply upserted_upsert | apply upsert_twice].
Qed.

Lemma page_upsert_idempotent_witness :
  (let once := snd (Part002.processPage Sample.cfg2 None Sample.page2
                      Sample.seeded2) in
   let twice := snd (Part002.processPage Sample.cfg2 None Sample.page2 once) in
   upserted Sample.seed "Example" (Some "An example") "<html></html>"
     (pages Sample.seeded2) (pages once)
   /\ rows (pages twice) = rows (pages once))
  /\ (let once := snd (WebCrawler.crawl Sample.driver42 Sample.cfg0 None
                         Sample.page0 Sample.seeded2) in
      let twice := snd (WebCrawler.crawl Sample.driver42 Sample.cfg0 None
                          Sample.page0 once) in
      upserted Sample.seed "Example" (Some "An example") "<html></html>"
        (pages Sample.seeded2) (pages once)
      /\ rows (pages twice) = rows (pages once)).
Proof.
  split.
  - apply (proj1 page_upsert_idempotent Sample.cfg2 Sample.page2
             Sample.seeded2).
    unfold page_wf; simpl. constructor.
  - apply (proj2 (proj2 page_upsert_idempotent) Sample.driver42 Sample.cfg0
             Sample.page0 Sample.seed Sample.seeded2).
    + unfold page_wf; simpl. constructor.
    + reflexivity.
Defined.

(** C6. The depth limit.  Every successful callback stores the page,
    whatever its depth.  When the depth of the page has reached
    [maxDepth] the only thing that happens to the frontier is that the
    row of the page is marked: no link is enqueued.  So for [processPage]
    of part_001 and part_002 and for [crawl] of src/WebCrawler.ts (for a
    [uri] that is a string).  Below [maxDepth] the links in scope are
    handed to the frontier: in part_001 and part_002, once the promise of
    [queueUrls] has settled, the frontier is the marked one with their
    rows added.  (Of src/WebCrawler.ts, which finds the links by a
    selector and writes them into the text of a statement, only the
    depth test is stated.) *)
Theorem depth_limit_gates_enqueue :
  (forall cfg res (w : World Z),
     let after := snd (Part001.processPage cfg None res w) in
     persisted (Part001.uri res) (Part001.title res)
       (Part001.description res) (Part001.html res) (pages after)
     /\ (Part001.maxDepth cfg <= Part001.res_depth res ->
         queue after = mark_crawled_by_url (Part001.uri res) (queue w))
     /\ (Part001.res_depth res < Part001.maxDepth cfg ->
         queue after
         = insert_ignore_queue_all 0
             (extract_links (Part001.targetUrl cfg) (Part001.anchors res))
             (mark_crawled_by_url (Part001.uri res) (queue w))))
  /\ (forall cfg res (w : World unit),
        let after := snd (Part002.processPage cfg None res w) in
        persisted (Part002.uri res) (Part002.title res)
          (Part002.description res) (Part002.html res) (pages after)
        /\ (Part002.maxDepth cfg <= Part002.res_depth res ->
            queue after = mark_crawled_by_url (Part002.uri res) (queue w))
        /\ (Part002.res_depth res < Part002.maxDepth cfg ->
            queue after
            = insert_ignore_queue_all tt
                (extract_links (Part002.targetUrl cfg) (Part002.anchors res))
                (mark_crawled_by_url (Part002.uri res) (queue w))))
  /\ (forall driver cfg res u (w : World unit),
        WebCrawler.uri res = Js.JStr u ->
        let after := snd (WebCrawler.crawl driver cfg None res w) in
        persisted u (WebCrawler.title res) (WebCrawler.description res)
          (WebCrawler.body res) (pages after)
        /\ (WebCrawler.maxDepth cfg <= WebCrawler.res_depth res ->
            queue after = mark_crawled_by_url u (queue w))).
Proof.
  split; [|split].
  - intros cfg res w. cbv zeta.
    destruct (p1_processPage_run cfg res w) as [lg ->].
    cbn [snd queue pages]. unfold p1_queue_after.
    split; [apply persisted_upsert|]. split; intros Hd.
    + now rewrite (proj2 (Z.ltb_ge _ _)) by exact Hd.
    + now rewrite (proj2 (Z.ltb_lt _ _)) by exact Hd.
  - intros cfg res w. cbv zeta. rewrite p2_processPage_run.
    cbn [snd queue pages]. unfold p2_queue_after.
    split; [apply persisted_upsert|]. split; intros Hd.
    + now rewrite (proj2 (Z.ltb_ge _ _)) by exact Hd.
    + now rewrite (proj2 (Z.ltb_lt _ _)) by exact Hd.
  - intros driver cfg res u w Hu. cbv zeta.
    rewrite (wc_crawl_run_string driver cfg res u) by exact Hu.
    cbn [snd]. rewrite pages_wc_next, queue_wc_next. cbn [queue pages].
    unfold wc_queue_enqueued.
    split; [apply persisted_upsert|]. intros Hd.
    now rewrite (proj2 (Z.ltb_ge _ _)) by exact Hd.
Qed.

Lemma depth_limit_gates_enqueue_witness :
  (let after := snd (Part002.processPage Sample.cfg2 None
                       Sample.page2_at_limit Sample.seeded2) in
   persisted Sample.seed "Example" (Some "An example") "<html></html>"
     (pages after)
   /\ queue after = mark_crawled_by_url Sample.seed (queue Sample.seeded2))
  /\ (let after := snd (Part002.processPage Sample.cfg2 None Sample.page2
                          Sample.seeded2) in
      queue after
      = insert_ignore_queue_all tt
          ["https://example.com/a"; "https://example.com/b"]
          (mark_crawled_by_url Sample.seed (queue Sample.seeded2)))
  /\ (let after := snd (WebCrawler.crawl Sample.driver42 Sample.cfg0 None
                          SampleMore.page0_at_limit Sample.seeded2) in
      persisted Sample.seed "Example" (Some "An example") "<html></html>"
        (pages after)
      /\ queue after
         = mark_crawled_by_url Sample.seed (queue Sample.seeded2)).
Proof.
  split; [|split].
  3:{ destruct (proj2 (proj2 depth_limit_gates_enqueue) Sample.driver42
                  Sample.cfg0 SampleMore.page0_at_limit Sample.seed
                  Sample.seeded2 eq_refl) as (Hp & Hge).
      split; [exact Hp|]. apply Hge. simpl. lia. }
  - destruct (proj1 (proj2 depth_limit_gates_enqueue) Sample.cfg2
                Sample.page2_at_limit Sample.seeded2) as (Hp & Hge & _).
    split; [exact Hp|]. apply Hge. simpl. lia.
  - destruct (proj1 (proj2 depth_limit_gates_enqueue) Sample.cfg2
                Sample.page2 Sample.seeded2) as (_ & _ & Hlt).
    apply Hlt. simpl. lia.
Defined.
End PageStoreClaims.

Section ScopeClaims.
Import Async Sql SqlFacts.





End ScopeClaims.

Section ScopeWitness.
Import Sql.


(** The seed page at depth 0 under [maxDepth] 1: two rows for the two
    links in scope, none for the other link. *)
Example p2_scenario_two_links :
  rows (queue (snd (Part002.processPage Sample.cfg2 None Sample.page2
                      Sample.seeded2)))
  = [mkQueue 1 Sample.seed true tt;
     mkQueue 2 "https://example.com/a" false tt;
     mkQueue 3 "https://example.com/b" false tt].
Proof. vm_compute. reflexivity. Qed.
End ScopeWitness.

Section FailureClaims.
Import Async Sql SqlFacts.

Lemma p1_next_rows_eligible max_depth limit (t : Table (QueueRow Z)) r :
  In r (Part001.next_rows max_depth limit t) ->
  In r (rows t) /\ q_is_crawled r = false.
Proof.
  unfold Part001.next_rows. intros Hin.
  apply list_elem_of_In, elem_of_take in Hin as (i & Hin & _).
  apply list_elem_of_lookup_2, list_elem_of_In in Hin.
  apply order_by_depth_id_In, filter_In in Hin as [Hin Hel].
  split; [exact Hin|]. unfold Part001.eligible in Hel.
  apply andb_true_iff in Hel as [Hel _]. now destruct (q_is_crawled r).
Qed.

(** C8 (the defect).  A failed fetch.  What holds: the callback logs the
    error, writes nothing to the page store, leaves the frontier as it
    is, calls [done()] once and returns normally, in part_001 and in
    src/WebCrawler.ts; and in part_001, where a row is marked when it is
    claimed, the next claim step does not select a row that was marked
    before the callback.  What does not: the crawl does not go on to the
    next URL.  [crawl] of src/WebCrawler.ts asks [getNextUrl] for it, and
    that reads the url column off the array of rows: under a column name
    that names nothing in an array (the default, [url], is one) nothing
    is handed to the crawler, whatever waits in the frontier; and under
    the name of a member that arrays inherit, what is handed to the
    crawler is that member, not a URL.  Nor was the row of the URL that
    failed ever marked: it waits there with the others.  [processPage]
    of part_001 hands nothing to the crawler either. *)
Theorem fetch_error_ends_the_crawl :
  (forall cfg e res (w : World Z),
     Part001.processPage cfg (Some e) res w
     = (Ret tt,
        mkWorld (pages w) (queue w)
                (log w ++ [LoggerError "Error crawling URL:"])
                (S (done_calls w)) (crawler_queue w)))
  /\ (forall cfg e res (w : World Z) r r',
        In r (rows (queue w)) -> q_is_crawled r = true ->
        In r' (Part001.next_rows (Part001.maxDepth cfg) 1
                 (queue (snd (Part001.processPage cfg (Some e) res w)))) ->
        r' <> r)
  /\ (forall driver cfg e res (w : World unit),
        Js.array_key (WebCrawler.urlColumnName cfg) = false ->
        WebCrawler.crawl driver cfg (Some e) res w
        = (Ret tt,
           mkWorld (pages w) (queue w) (log w ++ [ConsoleError e])
                   (S (done_calls w)) (crawler_queue w)))
  /\ (forall driver cfg e res (w : World unit),
        Js.inherited
          (Js.array_prototype_members ++ Js.object_prototype_members)
          (WebCrawler.urlColumnName cfg) = true ->
        WebCrawler.crawl driver cfg (Some e) res w
        = (Ret tt,
           mkWorld (pages w) (queue w) (log w ++ [ConsoleError e])
                   (S (done_calls w)) (crawler_queue w ++ [Js.JObject])))
  /\ (forall driver cfg e res limit r (w : World unit),
        In r (WebCrawler.next_rows limit (queue w)) ->
        In r (WebCrawler.next_rows limit
                (queue (snd (WebCrawler.crawl driver cfg (Some e) res w))))).
Proof.
  split; [|split; [|split; [|split]]].
  - reflexivity.
  - intros cfg e res w r r' Hr Hc Hnext ->.
    rewrite p1_processPage_error in Hnext. cbn [snd queue] in Hnext.
    apply p1_next_rows_eligible in Hnext as [_ Hnc]. congruence.
  - intros driver cfg e res w Hk. rewrite wc_crawl_error.
    now rewrite wc_next_nothing by exact Hk.
  - intros driver cfg e res w Hk. rewrite wc_crawl_error.
    unfold wc_next, bind. now rewrite wc_getNextUrl_inherited by exact Hk.
  - intros driver cfg e res limit r w H. rewrite wc_crawl_error. cbn [snd].
    now rewrite queue_wc_next.
Qed.

Lemma fetch_error_ends_the_crawl_witness :
  WebCrawler.next_rows 1 (queue SampleMore.waiting0)
  = [mkQueue 1 Sample.seed false tt]
  /\ WebCrawler.crawl Sample.driver42 Sample.cfg0 (Some "ETIMEDOUT")
       Sample.page0 SampleMore.waiting0
     = (Ret tt,
        mkWorld (pages SampleMore.waiting0) (queue SampleMore.waiting0)
                [ConsoleError "ETIMEDOUT"] 1 []).
Proof.
  split; [reflexivity|].
  apply (proj1 (proj2 (proj2 fetch_error_ends_the_crawl)) Sample.driver42
           Sample.cfg0 "ETIMEDOUT" Sample.page0 SampleMore.waiting0).
  reflexivity.
Defined.

(** C10 (amended).  In [crawl] of src/WebCrawler.ts the type of [uri] is
    checked after the upsert and before [markUrlAsCrawled].  For a
    response without fetch error whose [uri] is not a string the
    callback always ends in an exception, before [done()] and before
    anything is handed to the crawler; but which exception, and whether
    the page was stored, depends on the value.  [undefined] and [null]
    are bound as NULL, which the url column rejects: the engine's error
    is thrown, and nothing is stored.  Another value, which the engine
    stores under some key, gives ['url is not string'] after the upsert;
    for a page at the depth limit, where the callback enqueues nothing,
    the frontier is then as it was, the row of the page not marked. *)
Theorem crawl_non_string_uri_throws :
  (forall driver cfg res (w : World unit),
     WebCrawler.uri res = Js.JUndefined \/ WebCrawler.uri res = Js.JNull ->
     WebCrawler.crawl driver cfg None res w
     = (Throw (SqlExn ER_BAD_NULL_ERROR),
        mkWorld (pages w) (queue w) (log w ++ [ConsoleLog "Crawled"])
                (done_calls w) (crawler_queue w)))
  /\ (forall driver cfg res key (w : World unit),
        Js.is_string (WebCrawler.uri res) = false ->
        WebCrawler.bind_url driver (WebCrawler.uri res) = Ok key ->
        WebCrawler.maxDepth cfg <= WebCrawler.res_depth res ->
        WebCrawler.crawl driver cfg None res w
        = (Throw (JsExn "url is not string"),
           mkWorld (insert_page_on_duplicate_key_update key
                      (WebCrawler.title res) (WebCrawler.description res)
                      (WebCrawler.body res) (pages w))
                   (queue w) (log w ++ [ConsoleLog "Crawled"])
                   (done_calls w) (crawler_queue w)))
  /\ (forall driver cfg res (w : World unit),
        Js.is_string (WebCrawler.uri res) = false ->
        exists ex w',
          WebCrawler.crawl driver cfg None res w = (Throw ex, w')
          /\ done_calls w' = done_calls w
          /\ crawler_queue w' = crawler_queue w).
Proof.
  split; [|split].
  - intros driver cfg res w Hu.
    rewrite wc_crawl_run_other by (destruct Hu as [-> | ->]; reflexivity).
    now destruct Hu as [-> | ->].
  - intros driver cfg res key w Hs Hk Hd.
    rewrite wc_crawl_run_other by exact Hs. rewrite Hk.
    now rewrite (wc_crawl_at_limit cfg res w Hd).
  - intros driver cfg res w Hs. rewrite wc_crawl_run_other by exact Hs.
    destruct (WebCrawler.bind_url driver (WebCrawler.uri res)); eauto.
Qed.

Lemma crawl_non_string_uri_throws_witness :
  WebCrawler.crawl Sample.driver42 Sample.cfg0 None
    SampleMore.page0_number_at_limit Sample.seeded2
  = (Throw (JsExn "url is not string"),
     mkWorld (insert_page_on_duplicate_key_update "42" "Example"
                (Some "An example") "<html></html>" (pages Sample.seeded2))
             (queue Sample.seeded2) [ConsoleLog "Crawled"] 0 []).
Proof.
  apply (proj1 (proj2 crawl_non_string_uri_throws) Sample.driver42
           Sample.cfg0 SampleMore.page0_number_at_limit "42" Sample.seeded2).
  - reflexivity.
  - reflexivity.
  - cbn. lia.
Defined.

(** The claim as it stood fails at [undefined]: no upsert has been
    performed, and the exception is not ['url is not string']. *)
Lemma crawl_undefined_uri_counterexample :
  WebCrawler.crawl Sample.driver42 Sample.cfg0 None
    SampleMore.page0_undefined Sample.seeded2
  = (Throw (SqlExn ER_BAD_NULL_ERROR),
     mkWorld (pages Sample.seeded2) (queue Sample.seeded2)
             [ConsoleLog "Crawled"] 0 [])
  /\ pages Sample.seeded2 = empty
  /\ fst (WebCrawler.crawl Sample.driver42 Sample.cfg0 None
            SampleMore.page0_undefined Sample.seeded2)
     <> Throw (JsExn "url is not string").
Proof.
  split; [reflexivity|]. split; [reflexivity|]. discriminate.
Qed.
End FailureClaims.

(** * Further properties of the code *)

(** ** The claim step *)

Section ClaimStepMore.
Import Async Sql SqlFacts Part001.

Lemma mark_by_single_id (i : Z) (t : Table (QueueRow Z)) :
  rows (mark_crawled_by_ids [Js.JNum i] t)
  = map (fun r => if q_id r =? i then set_crawled r else r) (rows t).
Proof.
  unfold mark_crawled_by_ids; simpl. apply map_ext. intros r.
  now rewrite id_in_singleton.
Qed.

(** X1. [dequeueUrl] of part_001 picks, among the rows that are not
    crawled and whose depth is at most [maxDepth], the one that comes
    first by depth and then by id, and sets [is_crawled] on the rows that
    carry its id and on no other row; page store, [done()] count and
    crawler are left alone.  With no such row it answers [undefined]
    and changes nothing but the console output. *)
Theorem dequeueUrl_marks_first_eligible cfg (w : World Z) :
  match next_rows (maxDepth cfg) 1 (queue w) with
  | [] =>
      (forall r, In r (rows (queue w)) -> eligible (maxDepth cfg) r = false)
      /\ dequeueUrl cfg w
         = (Ret Js.JUndefined,
            mkWorld (pages w) (queue w) (log w ++ [ConsoleRows []])
                    (done_calls w) (crawler_queue w))
  | r :: _ =>
      In r (rows (queue w))
      /\ q_is_crawled r = false /\ depth r <= maxDepth cfg
      /\ (forall r', In r' (rows (queue w)) ->
            q_is_crawled r' = false -> depth r' <= maxDepth cfg ->
            depth r < depth r' \/ (depth r = depth r' /\ q_id r <= q_id r'))
      /\ rows (queue (snd (dequeueUrl cfg w)))
         = map (fun r' => if q_id r' =? q_id r then set_crawled r' else r')
               (rows (queue w))
      /\ pages (snd (dequeueUrl cfg w)) = pages w
      /\ done_calls (snd (dequeueUrl cfg w)) = done_calls w
      /\ crawler_queue (snd (dequeueUrl cfg w)) = crawler_queue w
  end.
Proof.
  pose proof (p1_dequeueUrl_claims_first cfg w) as H.
  pose proof (p1_dequeueUrl_run cfg w) as Hrun.
  pose proof (next_rows_length (maxDepth cfg) (queue w)) as Hlen.
  unfold select_next_ids in Hrun.
  destruct (next_rows (maxDepth cfg) 1 (queue w)) as [|r l]; [exact H|].
  destruct H as (Hin & Hel & Hmin & Hq).
  unfold eligible in Hel. apply andb_true_iff in Hel as [Hc Hd].
  apply negb_true_iff in Hc. apply Z.leb_le in Hd.
  split; [exact Hin|]. split; [exact Hc|]. split; [exact Hd|]. split.
  - intros r' Hr' Hc' Hd'. apply Hmin; [exact Hr'|].
    unfold eligible. rewrite Hc'. now apply Z.leb_le in Hd' as ->.
  - split; [rewrite Hq; apply mark_by_single_id|].
    rewrite Hrun. cbn. repeat split.
Qed.

(** X2. Two calls of [dequeueUrl], one after the other, never pick rows
    with the same id: what the first has marked is out of reach of the
    second. *)
Theorem sequential_claims_are_exclusive cfg (w : World Z) :
  exists v1 w1 v2 w2,
    dequeueUrl cfg w = (Ret v1, w1)
    /\ dequeueUrl cfg w1 = (Ret v2, w2)
    /\ forall r1 r2,
         In r1 (next_rows (maxDepth cfg) 1 (queue w)) ->
         In r2 (next_rows (maxDepth cfg) 1 (queue w1)) ->
         q_id r1 <> q_id r2.
Proof.
  pose proof (Part001_dequeueUrl_queue cfg w) as Hq.
  destruct (dequeueUrl cfg w) as [[v1|e1] w1] eqn:E1.
  2:{ rewrite p1_dequeueUrl_run in E1. cbv zeta in E1.
      destruct (select_next_ids _ _ _); discriminate. }
  destruct (dequeueUrl cfg w1) as [[v2|e2] w2] eqn:E2.
  2:{ rewrite p1_dequeueUrl_run in E2. cbv zeta in E2.
      destruct (select_next_ids _ _ _); discriminate. }
  exists v1, w1, v2, w2. split; [reflexivity|]. split; [exact E2|].
  intros r1 r2 H1 H2 E. cbn [snd] in Hq. rewrite Hq in H2.
  apply marked_not_selected in H2. apply H2.
  apply list_elem_of_In, in_map_iff. exists r1. split; [now rewrite E|exact H1].
Qed.

(** X3. [getNextUrl] of src/WebCrawler.ts reads the url column off the
    array of rows, not off a row.  Under a column name that names
    nothing in an array (not [length], not an index, not a member that
    arrays inherit; the default, [url], is such a name) it answers
    [null] whatever the frontier holds and changes nothing, and so no run
    of [crawl] ever hands a next URL to the crawler.  Under the name of
    an inherited member it answers that member, whatever the frontier
    holds, and [crawl] hands it to the crawler in place of a URL. *)
Theorem getNextUrl_answers_null :
  (forall cfg (w : World unit),
     Js.array_key (WebCrawler.urlColumnName cfg) = false ->
     WebCrawler.getNextUrl cfg w = (Ret Js.JNull, w)
     /\ forall driver error res,
          crawler_queue (snd (WebCrawler.crawl driver cfg error res w))
          = crawler_queue w)
  /\ (forall cfg (w : World unit),
        Js.inherited
          (Js.array_prototype_members ++ Js.object_prototype_members)
          (WebCrawler.urlColumnName cfg) = true ->
        WebCrawler.getNextUrl cfg w = (Ret Js.JObject, w)
        /\ forall driver e res,
             crawler_queue
               (snd (WebCrawler.crawl driver cfg (Some e) res w))
             = crawler_queue w ++ [Js.JObject]).
Proof.
  split.
  - intros cfg w Hk.
    assert (Hnext : forall w' : World unit, wc_next cfg w' = w')
      by (intros w'; now apply wc_next_nothing).
    split; [now apply wc_getNextUrl_nothing|].
    intros driver [e|] res.
    + rewrite wc_crawl_error. cbn [snd]. now rewrite Hnext.
    + destruct (WebCrawler.uri res) as [| |b|n|s|] eqn:Hu.
      all: try (rewrite wc_crawl_run_other by (rewrite Hu; reflexivity);
                now destruct (WebCrawler.bind_url driver
                                (WebCrawler.uri res))).
      rewrite (wc_crawl_run_string driver cfg res s w Hu).
      cbn [snd]. now rewrite Hnext.
  - intros cfg w Hk.
    assert (Hget : forall w' : World unit,
              WebCrawler.getNextUrl cfg w' = (Ret Js.JObject, w'))
      by (intros w'; now apply wc_getNextUrl_inherited).
    split; [apply Hget|].
    intros driver e res. rewrite wc_crawl_error. cbn [snd].
    unfold wc_next, bind. now rewrite Hget.
Qed.

Lemma getNextUrl_answers_null_witness :
  WebCrawler.getNextUrl Sample.cfg0 SampleMore.waiting0
  = (Ret Js.JNull, SampleMore.waiting0)
  /\ forall driver error res,
       crawler_queue (snd (WebCrawler.crawl driver Sample.cfg0 error res
                             SampleMore.waiting0))
       = crawler_queue SampleMore.waiting0.
Proof.
  apply (proj1 getNextUrl_answers_null Sample.cfg0 SampleMore.waiting0).
  reflexivity.
Defined.
End ClaimStepMore.

(** ** Enqueueing and seeding *)

Section EnqueueMore.
Import Async Sql SqlFacts.

Lemma insert_ignore_queue_all_present {X : Type} (x : X) urls
    (t : Table (QueueRow X)) :
  (forall u, In u urls -> existsb (queue_has_url u) (rows t) = true) ->
  insert_ignore_queue_all x urls t = t.
Proof.
  induction urls as [|u urls IH]; intros Hall; [reflexivity|].
  rewrite insert_ignore_queue_all_cons.
  rewrite insert_ignore_queue_present by (apply Hall; now left).
  apply IH. intros v Hv. apply Hall. now right.
Qed.

(** Once every URL of the list has its row, the loop of part_001 swallows
    one ER_DUP_ENTRY per URL and logs nothing. *)
Lemma p1_queueUrls_all_present urls (w : World Z) :
  (forall u, In u urls -> existsb (queue_has_url u) (rows (queue w)) = true) ->
  Part001.queueUrls urls w = (Ret tt, w).
Proof.
  intros Hall.
  assert (Hloop : for_each urls (fun url =>
            try_catch
              (insertId <- try_queue (insert_queue url 0) ;;
               if Js.truthy (Js.JNum insertId)
               then emit (LoggerInfo ("Queued URL: " +:+ url))
               else ret tt)
              (fun error =>
                 match error with
                 | SqlExn ER_DUP_ENTRY => ret tt
                 | _ => throw error
                 end)) w = (Ret tt, w)).
  { induction urls as [|u urls IH]; [reflexivity|].
    cbn [for_each]. unfold bind at 1, try_catch at 1, bind at 1, try_queue.
    unfold insert_queue at 1. rewrite (Hall u) by now left. cbn.
    apply IH. intros v Hv. apply Hall. now right. }
  unfold Part001.queueUrls, transaction. unfold try_catch at 1.
  now rewrite Hloop.
Qed.

Lemma count_url_one {X : Type} (u : string) (t : Table (QueueRow X)) :
  queue_wf t -> existsb (queue_has_url u) (rows t) = true ->
  count_url u t = 1%nat.
Proof.
  intros (Hnd & _) Hex. unfold count_url.
  pose proof (select_queue_unique u t Hnd) as Hle.
  destruct (select_queue u t) as [|r l] eqn:Hs.
  - apply select_queue_nil_iff in Hs. congruence.
  - simpl in *. lia.
Qed.

Lemma with_queue_fixed {X : Type}
    (f : Table (QueueRow X) -> Table (QueueRow X)) (w : World X) :
  f (f (queue w)) = f (queue w) ->
  with_queue f (with_queue f w) = with_queue f w.
Proof. intros E. unfold with_queue; cbn. now rewrite E. Qed.

(** X4. [queueUrls] is idempotent on whole lists, duplicates within the
    list included: run on a frontier that respects its unique key it
    raises nothing and leaves exactly one row for every URL of the list;
    run again with the same list it raises nothing and changes nothing,
    the log included.  So for part_001, part_002 and src/WebCrawler.ts
    (there for a list that is not empty, of URLs that the quoted literal
    denotes: the statement it builds needs at least one tuple). *)
Theorem queueUrls_list_idempotent :
  (forall urls (w : World Z),
     queue_wf (queue w) ->
     exists w',
       Part001.queueUrls urls w = (Ret tt, w')
       /\ Part001.queueUrls urls w' = (Ret tt, w')
       /\ forall u, In u urls -> count_url u (queue w') = 1%nat)
  /\ (forall urls (w : World unit),
        queue_wf (queue w) ->
        exists w',
          Part002.queueUrls urls w = (Ret tt, w')
          /\ Part002.queueUrls urls w' = (Ret tt, w')
          /\ forall u, In u urls -> count_url u (queue w') = 1%nat)
  /\ (forall urls (w : World unit),
        queue_wf (queue w) ->
        urls <> [] -> forallb WebCrawler.sql_plain urls = true ->
        exists w',
          WebCrawler.queueUrls urls w = (Ret tt, w')
          /\ WebCrawler.queueUrls urls w' = (Ret tt, w')
          /\ forall u, In u urls -> count_url u (queue w') = 1%nat).
Proof.
  assert (Hunit : forall urls (w : World unit),
            queue_wf (queue w) ->
            with_queue (insert_ignore_queue_all tt urls)
              (with_queue (insert_ignore_queue_all tt urls) w)
            = with_queue (insert_ignore_queue_all tt urls) w
            /\ forall u, In u urls ->
                 count_url u
                   (queue (with_queue (insert_ignore_queue_all tt urls) w))
                 = 1%nat).
  { intros urls w Hwf. split.
    - apply with_queue_fixed. apply insert_ignore_queue_all_present.
      intros u Hu. now apply insert_ignore_queue_all_has.
    - intros u Hu. cbn [with_queue queue]. apply count_url_one.
      + now apply queue_wf_insert_ignore_all.
      + now apply insert_ignore_queue_all_has. }
  split; [|split].
  - intros urls w Hwf. destruct (p1_queueUrls_run urls w) as [lg Hrun].
    eexists. split; [exact Hrun|]. split.
    + apply p1_queueUrls_all_present. cbn [queue]. intros u Hu.
      now apply insert_ignore_queue_all_has.
    + intros u Hu. cbn [queue]. apply count_url_one.
      * now apply queue_wf_insert_ignore_all.
      * now apply insert_ignore_queue_all_has.
  - intros urls w Hwf. destruct (Hunit urls w Hwf) as [Hfix Hcount].
    eexists. rewrite p2_queueUrls_run. split; [reflexivity|].
    split; [|exact Hcount]. rewrite p2_queueUrls_run. now rewrite Hfix.
  - intros urls w Hwf Hne _. destruct (Hunit urls w Hwf) as [Hfix Hcount].
    eexists. rewrite wc_queueUrls_run by exact Hne. split; [reflexivity|].
    split; [|exact Hcount].
    rewrite wc_queueUrls_run by exact Hne. now rewrite Hfix.
Qed.

Lemma queueUrls_list_idempotent_witness :
  exists w',
    Part001.queueUrls
      ["https://example.com/a"; "https://example.com/b";
       "https://example.com/a"] Sample.seeded1 = (Ret tt, w')
    /\ Part001.queueUrls
         ["https://example.com/a"; "https://example.com/b";
          "https://example.com/a"] w' = (Ret tt, w')
    /\ forall u,
         In u ["https://example.com/a"; "https://example.com/b";
               "https://example.com/a"] ->
         count_url u (queue w') = 1%nat.
Proof.
  apply (proj1 queueUrls_list_idempotent). apply queue_wf_sample.
Defined.

(** X5. The seeding of part_001.  On a frontier without a row for the
    target, [createTables] appends the target as a row that is not
    crawled, at depth 0 and under the next id, and logs nothing.  On a
    frontier that has the target it changes neither table: the engine's
    ER_DUP_ENTRY is caught and logged as an error, not raised. *)
Theorem createTables_seeds_once :
  (forall cfg (w : World Z),
     existsb (queue_has_url (Part001.targetUrl cfg)) (rows (queue w)) = false ->
     Part001.createTables cfg w
     = (Ret tt,
        mkWorld (pages w)
                (mkTable (rows (queue w)
                          ++ [mkQueue (auto_increment (queue w))
                                      (Part001.targetUrl cfg) false 0])
                         (auto_increment (queue w) + 1))
                (log w) (done_calls w) (crawler_queue w)))
  /\ (forall cfg (w : World Z),
        existsb (queue_has_url (Part001.targetUrl cfg)) (rows (queue w)) = true ->
        Part001.createTables cfg w
        = (Ret tt,
           mkWorld (pages w) (queue w)
                   (log w ++ [LoggerError "Error creating tables"])
                   (done_calls w) (crawler_queue w))).
Proof.
  split; intros cfg w Hex.
  - unfold Part001.createTables, create_table_if_not_exists, try_catch,
      bind, ret, try_queue, insert_queue.
    rewrite Hex. reflexivity.
  - now apply p1_createTables_again.
Qed.

Lemma createTables_seeds_once_witness :
  let cfg := Part001.mkConfig Sample.seed 3 "url" in
  let fresh : World Z := mkWorld empty empty [] 0 [] in
  Part001.createTables cfg fresh = (Ret tt, Sample.seeded1)
  /\ Part001.createTables cfg Sample.seeded1
     = (Ret tt,
        mkWorld (pages Sample.seeded1) (queue Sample.seeded1)
                [LoggerError "Error creating tables"] 0 []).
Proof.
  split.
  - apply (proj1 createTables_seeds_once
             (Part001.mkConfig Sample.seed 3 "url")
             (mkWorld empty empty [] 0 [])).
    reflexivity.
  - apply (proj2 createTables_seeds_once
             (Part001.mkConfig Sample.seed 3 "url") Sample.seeded1).
    reflexivity.
Defined.

(** X6. [start] of part_002 and of src/WebCrawler.ts does one thing: it
    enqueues the target.  It raises nothing, hands no URL to the crawler
    (so no fetch begins), calls no [done()], leaves the page store and
    the log alone; and a second [start] changes nothing at all.  (In
    src/WebCrawler.ts for a target that the quoted literal denotes.) *)
Theorem start_only_seeds :
  (forall cfg (w : World unit),
     exists w',
       Part002.start cfg w = (Ret tt, w')
       /\ queue w' = insert_ignore_queue (Part002.targetUrl cfg) tt (queue w)
       /\ pages w' = pages w /\ log w' = log w
       /\ done_calls w' = done_calls w
       /\ crawler_queue w' = crawler_queue w
       /\ Part002.start cfg w' = (Ret tt, w'))
  /\ (forall cfg (w : World unit),
        WebCrawler.sql_plain (WebCrawler.targetUrl cfg) = true ->
        exists w',
          WebCrawler.start cfg w = (Ret tt, w')
          /\ queue w'
             = insert_ignore_queue (WebCrawler.targetUrl cfg) tt (queue w)
          /\ pages w' = pages w /\ log w' = log w
          /\ done_calls w' = done_calls w
          /\ crawler_queue w' = crawler_queue w
          /\ WebCrawler.start cfg w' = (Ret tt, w')).
Proof.
  split; [intros cfg w | intros cfg w _].
  - rewrite p2_start_run.
    eexists. split; [reflexivity|]. repeat (split; [reflexivity|]).
    rewrite p2_start_run. f_equal.
    apply with_queue_same. cbn [with_queue queue].
    apply (insert_ignore_queue_twice (Part002.targetUrl cfg) tt tt).
  - rewrite wc_start_run.
    eexists. split; [reflexivity|]. repeat (split; [reflexivity|]).
    rewrite wc_start_run. f_equal.
    apply with_queue_same. cbn [with_queue queue].
    apply (insert_ignore_queue_twice (WebCrawler.targetUrl cfg) tt tt).
Qed.

Lemma start_only_seeds_witness :
  exists w',
    WebCrawler.start Sample.cfg0 (mkWorld empty empty [] 0 []) = (Ret tt, w')
    /\ queue w' = insert_ignore_queue Sample.seed tt empty
    /\ pages w' = empty /\ log w' = []
    /\ done_calls w' = 0%nat
    /\ crawler_queue w' = []
    /\ WebCrawler.start Sample.cfg0 w' = (Ret tt, w').
Proof.
  apply (proj2 start_only_seeds Sample.cfg0 (mkWorld empty empty [] 0 [])).
  reflexivity.
Defined.
End EnqueueMore.

(** ** The callbacks *)

Section CallbackMore.
Import Async Sql SqlFacts.

Lemma done_calls_wc_next cfg (w : World unit) :
  done_calls (wc_next cfg w) = done_calls w.
Proof. apply (wc_next_keeps cfg w). Qed.

(** X7. With an engine that rejects a statement for a duplicate key
    only, every run of a callback of part_001 and of part_002, with or
    without fetch error, ends normally after exactly one [done()], and
    hands nothing to the crawler.  The callback of src/WebCrawler.ts
    calls [done()] exactly once after a fetch error, and exactly once for
    a page at the depth limit whose [uri] is a string; it never calls it
    for a [uri] that is not a string.  (Below the depth limit a string
    [uri] leads through the selector, which is the selector engine's to
    read: nothing is stated there.) *)
Theorem callback_calls_done_once :
  (forall cfg error res (w : World Z),
     exists w',
       Part001.processPage cfg error res w = (Ret tt, w')
       /\ done_calls w' = S (done_calls w)
       /\ crawler_queue w' = crawler_queue w)
  /\ (forall cfg error res (w : World unit),
        exists w',
          Part002.processPage cfg error res w = (Ret tt, w')
          /\ done_calls w' = S (done_calls w)
          /\ crawler_queue w' = crawler_queue w)
  /\ (forall driver cfg e res (w : World unit),
        exists w',
          WebCrawler.crawl driver cfg (Some e) res w = (Ret tt, w')
          /\ done_calls w' = S (done_calls w))
  /\ (forall driver cfg res u (w : World unit),
        WebCrawler.uri res = Js.JStr u ->
        WebCrawler.maxDepth cfg <= WebCrawler.res_depth res ->
        exists w',
          WebCrawler.crawl driver cfg None res w = (Ret tt, w')
          /\ done_calls w' = S (done_calls w))
  /\ (forall driver cfg res (w : World unit),
        Js.is_string (WebCrawler.uri res) = false ->
        done_calls (snd (WebCrawler.crawl driver cfg None res w))
        = done_calls w).
Proof.
  split; [|split; [|split; [|split]]].
  - intros cfg [e|] res w.
    + rewrite p1_processPage_error. eauto.
    + destruct (p1_processPage_run cfg res w) as [lg ->]. eauto.
  - intros cfg [e|] res w.
    + rewrite p2_processPage_error. eauto.
    + rewrite p2_processPage_run. eauto.
  - intros driver cfg e res w. rewrite wc_crawl_error.
    eexists. split; [reflexivity|]. now rewrite done_calls_wc_next.
  - intros driver cfg res u w Hu _.
    rewrite (wc_crawl_run_string driver cfg res u w Hu).
    eexists. split; [reflexivity|]. now rewrite done_calls_wc_next.
  - intros driver cfg res w Hs. rewrite wc_crawl_run_other by exact Hs.
    destruct (WebCrawler.bind_url driver (WebCrawler.uri res)); reflexivity.
Qed.

Lemma callback_calls_done_once_witness :
  exists w',
    WebCrawler.crawl Sample.driver42 Sample.cfg0 None
      SampleMore.page0_at_limit Sample.seeded2 = (Ret tt, w')
    /\ done_calls w' = 1%nat.
Proof.
  apply (proj1 (proj2 (proj2 (proj2 callback_calls_done_once)))
           Sample.driver42 Sample.cfg0 SampleMore.page0_at_limit
           Sample.seed Sample.seeded2).
  - reflexivity.
  - cbn. lia.
Defined.

Lemma select_page_upsert_other u v title d html (t : Table PageRow) :
  v <> u ->
  select_page v (insert_page_on_duplicate_key_update u title d html t)
  = select_page v t.
Proof.
  intros Hne.
  assert (Hv : forall r, page_has_url u r = true -> page_has_url v r = false).
  { intros r Hr. apply page_has_url_iff in Hr.
    destruct (page_has_url v r) eqn:E; [|reflexivity].
    apply page_has_url_iff in E. congruence. }
  destruct (existsb (page_has_url u) (rows t)) eqn:Hex.
  - rewrite upsert_present by assumption.
    unfold select_page, update_page; cbn [rows]. clear Hex.
    induction (rows t) as [|r l IH]; [reflexivity|].
    cbn [map List.filter].
    destruct (page_has_url u r) eqn:Hr.
    + assert (Hs : page_has_url v (set_page_fields title d html r) = false)
        by (apply Hv; exact Hr).
      rewrite Hs, (Hv r Hr). apply IH.
    + destruct (page_has_url v r); [f_equal|]; apply IH.
  - rewrite upsert_absent by assumption.
    unfold select_page; cbn [rows]. rewrite List.filter_app. cbn [List.filter].
    assert (Hs : page_has_url v (mkPage (auto_increment t) u title d html)
                 = false)
      by (apply Hv; unfold page_has_url; cbn; apply String.eqb_refl).
    rewrite Hs. apply app_nil_r.
Qed.

(** X8. The page store is touched by the callbacks only, and there only
    at the row of the page fetched: after a callback of part_001, of
    part_002 or of src/WebCrawler.ts (whatever the engine made of a
    [uri] that is not a string: [key] is the url it stored, if any), the
    rows of every other url are what they were; after a fetch error the
    whole table is.  The frontier operations ([queueUrls] and
    [dequeueUrl] and [createTables] of part_001, [queueUrls] of part_002,
    [getNextUrl] and [markUrlAsCrawled] of src/WebCrawler.ts) leave the
    table as it is. *)
Theorem page_store_frame :
  (forall cfg error res v (w : World Z),
     v <> Part001.uri res ->
     select_page v (pages (snd (Part001.processPage cfg error res w)))
     = select_page v (pages w))
  /\ (forall cfg error res v (w : World unit),
        v <> Part002.uri res ->
        select_page v (pages (snd (Part002.processPage cfg error res w)))
        = select_page v (pages w))
  /\ (forall driver cfg error res v (w : World unit),
        (forall key, WebCrawler.bind_url driver (WebCrawler.uri res) = Ok key ->
                     v <> key) ->
        select_page v (pages (snd (WebCrawler.crawl driver cfg error res w)))
        = select_page v (pages w))
  /\ (forall cfg e res (w : World Z),
        pages (snd (Part001.processPage cfg (Some e) res w)) = pages w)
  /\ (forall cfg e res (w : World unit),
        pages (snd (Part002.processPage cfg (Some e) res w)) = pages w)
  /\ (forall driver cfg e res (w : World unit),
        pages (snd (WebCrawler.crawl driver cfg (Some e) res w)) = pages w)
  /\ (forall cfg urls (w : World Z),
        pages (snd (Part001.queueUrls urls w)) = pages w
        /\ pages (snd (Part001.dequeueUrl cfg w)) = pages w
        /\ pages (snd (Part001.createTables cfg w)) = pages w)
  /\ (forall cfg urls u (w : World unit),
        pages (snd (Part002.queueUrls urls w)) = pages w
        /\ pages (snd (WebCrawler.getNextUrl cfg w)) = pages w
        /\ pages (snd (WebCrawler.markUrlAsCrawled u w)) = pages w).
Proof.
  split; [|split; [|split; [|split; [|split; [|split; [|split]]]]]].
  - intros cfg [e|] res v w Hne.
    + now rewrite p1_processPage_error.
    + destruct (p1_processPage_run cfg res w) as [lg ->]. cbn [snd pages].
      now apply select_page_upsert_other.
  - intros cfg [e|] res v w Hne.
    + now rewrite p2_processPage_error.
    + rewrite p2_processPage_run. cbn [snd pages].
      now apply select_page_upsert_other.
  - intros driver cfg [e|] res v w Hne.
    + rewrite wc_crawl_error. cbn [snd]. now rewrite pages_wc_next.
    + destruct (Js.is_string (WebCrawler.uri res)) eqn:Hs.
      * destruct (WebCrawler.uri res) as [| | | |u|] eqn:Hu;
          try discriminate.
        rewrite (wc_crawl_run_string driver cfg res u w Hu). cbn [snd].
        rewrite pages_wc_next. cbn [pages].
        apply select_page_upsert_other. now apply Hne.
      * rewrite wc_crawl_run_other by exact Hs.
        destruct (WebCrawler.bind_url driver (WebCrawler.uri res))
          as [key|err]; cbn [snd pages]; [|reflexivity].
        apply select_page_upsert_other. now apply Hne.
  - intros cfg e res w. now rewrite p1_processPage_error.
  - intros cfg e res w. now rewrite p2_processPage_error.
  - intros driver cfg e res w. rewrite wc_crawl_error. cbn [snd].
    now rewrite pages_wc_next.
  - intros cfg urls w. split; [|split].
    + destruct (p1_queueUrls_run urls w) as [lg ->]. reflexivity.
    + rewrite p1_dequeueUrl_run. cbv zeta.
      destruct (Part001.select_next_ids (Part001.maxDepth cfg) 1 (queue w));
        reflexivity.
    + destruct (p1_createTables_run cfg w) as [lg ->]. reflexivity.
  - intros cfg urls u w. split; [|split].
    + now rewrite p2_queueUrls_run.
    + now rewrite wc_getNextUrl_reads_only.
    + reflexivity.
Qed.

Lemma page_store_frame_witness :
  select_page "https://example.com/other"
    (pages (snd (Part001.processPage Sample.cfg1 None Sample.page1
                   Sample.claimed1)))
  = select_page "https://example.com/other" (pages Sample.claimed1).
Proof.
  apply (proj1 page_store_frame Sample.cfg1 None Sample.page1
           "https://example.com/other" Sample.claimed1).
  discriminate.
Defined.
End CallbackMore.

(** ** The row of the page itself *)

Section OwnRow.
Import Async Sql SqlFacts.

(** The rows a multi-row INSERT IGNORE appends are new to the table:
    none repeats a url that was there. *)
Lemma insert_ignore_queue_all_fresh {X : Type} (x : X) urls
    (t : Table (QueueRow X)) :
  exists added,
    rows (insert_ignore_queue_all x urls t) = rows t ++ added
    /\ Forall (fun r => q_is_crawled r = false
                        /\ existsb (queue_has_url (q_url r)) (rows t) = false)
              added.
Proof.
  revert t. induction urls as [|u urls IH]; intros t.
  - exists []. split; [now rewrite app_nil_r | constructor].
  - rewrite insert_ignore_queue_all_cons.
    destruct (IH (insert_ignore_queue u x t)) as (added & E & F).
    rewrite E. clear E.
    destruct (existsb (queue_has_url u) (rows t)) eqn:Hex.
    + rewrite insert_ignore_queue_present in * by assumption.
      exists added. split; [reflexivity | exact F].
    + rewrite insert_ignore_queue_absent in * by assumption.
      cbn [rows] in *.
      exists (mkQueue (auto_increment t) u false x :: added). split.
      * rewrite <- app_assoc. reflexivity.
      * constructor; [cbn; auto|].
        eapply Forall_impl; [exact F|]. cbn beta. intros r (Hc & Hr).
        split; [exact Hc|].
        rewrite existsb_app in Hr. now apply orb_false_iff in Hr as [Hr _].
Qed.

Lemma marked_by_url {X : Type} (u : string) (t : Table (QueueRow X)) r :
  In r (rows (mark_crawled_by_url u t)) -> q_url r = u ->
  q_is_crawled r = true.
Proof.
  unfold mark_crawled_by_url; cbn [rows]. intros Hin Hu.
  apply in_map_iff in Hin as (r0 & E & _).
  destruct (queue_has_url u r0) eqn:Hr0; subst r; [reflexivity|].
  cbn in Hu. apply queue_has_url_iff in Hu. congruence.
Qed.

Lemma has_url_after_mark {X : Type} (u v : string) (t : Table (QueueRow X)) :
  existsb (queue_has_url v) (rows (mark_crawled_by_url u t))
  = existsb (queue_has_url v) (rows t).
Proof.
  unfold mark_crawled_by_url; cbn [rows].
  induction (rows t) as [|r l IH]; [reflexivity|]. cbn [map existsb].
  rewrite IH. f_equal. now destruct (queue_has_url u r).
Qed.

Lemma mark_crawled_by_url_absent {X : Type} (u : string)
    (t : Table (QueueRow X)) :
  existsb (queue_has_url u) (rows t) = false ->
  mark_crawled_by_url u t = t.
Proof.
  unfold mark_crawled_by_url. destruct t as [l n]; cbn [rows auto_increment].
  intros Hex. f_equal.
  induction l as [|r l IH]; [reflexivity|]. cbn [existsb map] in *.
  apply orb_false_iff in Hex as [Hr Hl]. now rewrite Hr, IH.
Qed.

Lemma own_row_after_enqueue {X : Type} (x : X) urls u
    (t : Table (QueueRow X)) r :
  existsb (queue_has_url u) (rows t) = true ->
  In r (rows (insert_ignore_queue_all x urls (mark_crawled_by_url u t))) ->
  q_url r = u -> q_is_crawled r = true.
Proof.
  intros Hex Hin Hu.
  destruct (insert_ignore_queue_all_fresh x urls (mark_crawled_by_url u t))
    as (added & E & F).
  rewrite E in Hin. apply in_app_or in Hin as [Hin|Hin].
  - now apply (marked_by_url u t).
  - rewrite Forall_forall in F. apply list_elem_of_In in Hin.
    destruct (F r Hin) as (_ & Hfresh).
    rewrite has_url_after_mark, Hu in Hfresh. congruence.
Qed.

Lemma self_link_row {X : Type} (x : X) urls u (t : Table (QueueRow X)) :
  existsb (queue_has_url u) (rows t) = false -> In u urls ->
  exists r,
    In r (rows (insert_ignore_queue_all x urls (mark_crawled_by_url u t)))
    /\ q_url r = u /\ q_is_crawled r = false.
Proof.
  intros Hex Hin. rewrite mark_crawled_by_url_absent by exact Hex.
  pose proof (insert_ignore_queue_all_has x urls t u Hin) as Hhas.
  destruct (insert_ignore_queue_all_fresh x urls t) as (added & E & F).
  rewrite E in *. rewrite existsb_app, Hex in Hhas. cbn [orb] in Hhas.
  apply existsb_exists in Hhas as (r & Hr & Hu).
  apply queue_has_url_iff in Hu.
  exists r. split; [apply in_or_app; now right|]. split; [exact Hu|].
  rewrite Forall_forall in F. apply list_elem_of_In in Hr.
  now destruct (F r Hr).
Qed.

(** X9. The row of the page itself.  In part_001 and part_002 the
    callback marks the rows of the page's url, and enqueues the links
    after: a row that the url had before the callback is marked; but
    when the url had none (the page was fetched without having been
    enqueued), is below the depth limit and links to itself within
    scope, the callback leaves a row of that very url that is not
    crawled, and the page will be fetched again.  In src/WebCrawler.ts,
    for a page at the depth limit (where the callback enqueues nothing)
    whose [uri] is a string, every frontier row of that url is marked
    once the callback has run. *)
Theorem own_row_marked :
  (forall driver cfg res u (w : World unit) r,
     WebCrawler.uri res = Js.JStr u ->
     WebCrawler.maxDepth cfg <= WebCrawler.res_depth res ->
     In r (rows (queue (snd (WebCrawler.crawl driver cfg None res w)))) ->
     q_url r = u -> q_is_crawled r = true)
  /\ (forall cfg res (w : World Z) r,
        existsb (queue_has_url (Part001.uri res)) (rows (queue w)) = true ->
        In r (rows (queue (snd (Part001.processPage cfg None res w)))) ->
        q_url r = Part001.uri res -> q_is_crawled r = true)
  /\ (forall cfg res (w : World unit) r,
        existsb (queue_has_url (Part002.uri res)) (rows (queue w)) = true ->
        In r (rows (queue (snd (Part002.processPage cfg None res w)))) ->
        q_url r = Part002.uri res -> q_is_crawled r = true)
  /\ (forall cfg res (w : World Z),
        existsb (queue_has_url (Part001.uri res)) (rows (queue w)) = false ->
        Part001.res_depth res < Part001.maxDepth cfg ->
        In (Part001.uri res)
           (extract_links (Part001.targetUrl cfg) (Part001.anchors res)) ->
        exists r,
          In r (rows (queue (snd (Part001.processPage cfg None res w))))
          /\ q_url r = Part001.uri res /\ q_is_crawled r = false)
  /\ (forall cfg res (w : World unit),
        existsb (queue_has_url (Part002.uri res)) (rows (queue w)) = false ->
        Part002.res_depth res < Part002.maxDepth cfg ->
        In (Part002.uri res)
           (extract_links (Part002.targetUrl cfg) (Part002.anchors res)) ->
        exists r,
          In r (rows (queue (snd (Part002.processPage cfg None res w))))
          /\ q_url r = Part002.uri res /\ q_is_crawled r = false).
Proof.
  split; [|split; [|split; [|split]]].
  - intros driver cfg res u w r Hu _.
    rewrite (wc_crawl_run_string driver cfg res u w Hu). cbn [snd].
    rewrite queue_wc_next. cbn [queue]. apply marked_by_url.
  - intros cfg res w r Hex.
    destruct (p1_processPage_run cfg res w) as [lg ->]. cbn [snd queue].
    unfold p1_queue_after.
    destruct (Part001.res_depth res <? Part001.maxDepth cfg).
    + now apply own_row_after_enqueue.
    + apply marked_by_url.
  - intros cfg res w r Hex.
    rewrite p2_processPage_run. cbn [snd queue]. unfold p2_queue_after.
    destruct (Part002.res_depth res <? Part002.maxDepth cfg).
    + now apply own_row_after_enqueue.
    + apply marked_by_url.
  - intros cfg res w Hex Hd Hin.
    destruct (p1_processPage_run cfg res w) as [lg ->]. cbn [snd queue].
    unfold p1_queue_after.
    apply Z.ltb_lt in Hd. rewrite Hd. now apply self_link_row.
  - intros cfg res w Hex Hd Hin.
    rewrite p2_processPage_run. cbn [snd queue]. unfold p2_queue_after.
    apply Z.ltb_lt in Hd. rewrite Hd. now apply self_link_row.
Qed.

Lemma own_row_marked_witness :
  (forall r,
     In r (rows (queue (snd (Part002.processPage Sample.cfg2 None Sample.page2
                               Sample.seeded2)))) ->
     q_url r = Sample.seed -> q_is_crawled r = true)
  /\ exists r,
       In r (rows (queue (snd (Part002.processPage Sample.cfg2 None
                                 SampleMore.self_link2 Sample.seeded2))))
       /\ q_url r = "https://example.com/s" /\ q_is_crawled r = false.
Proof.
  split.
  - intros r.
    apply (proj1 (proj2 (proj2 own_row_marked)) Sample.cfg2 Sample.page2
             Sample.seeded2 r).
    reflexivity.
  - apply (proj2 (proj2 (proj2 (proj2 own_row_marked))) Sample.cfg2
             SampleMore.self_link2 Sample.seeded2).
    + reflexivity.
    + reflexivity.
    + cbn. now left.
Defined.
End OwnRow.

(** ** The loops over [dequeueUrl] *)

Section DequeueLoops.
Import Async Sql SqlFacts Part001.

Local Abbreviation candidates cfg t :=
  (List.filter (eligible (maxDepth cfg)) (rows t)).

Lemma eligible_after_mark max_depth ids (r : QueueRow Z) :
  eligible max_depth (if id_in ids r then set_crawled r else r) = true ->
  eligible max_depth r = true /\ id_in ids r = false.
Proof. destruct (id_in ids r); [discriminate | auto]. Qed.

Lemma candidates_after_mark_le max_depth ids (l : list (QueueRow Z)) :
  (length (List.filter (eligible max_depth)
             (map (fun r => if id_in ids r then set_crawled r else r) l))
   <= length (List.filter (eligible max_depth) l))%nat.
Proof.
  induction l as [|r l IH]; [reflexivity|]. cbn [map List.filter].
  destruct (eligible max_depth (if id_in ids r then set_crawled r else r))
    eqn:E.
  - apply eligible_after_mark in E as [-> _]. cbn [length]. lia.
  - destruct (eligible max_depth r); cbn [length]; lia.
Qed.

Lemma candidates_after_mark_lt max_depth ids (l : list (QueueRow Z)) r :
  In r l -> eligible max_depth r = true -> id_in ids r = true ->
  (length (List.filter (eligible max_depth)
             (map (fun r => if id_in ids r then set_crawled r else r) l))
   < length (List.filter (eligible max_depth) l))%nat.
Proof.
  induction l as [|h l IH]; intros Hin Hel Hid; [destruct Hin|].
  cbn [map List.filter].
  pose proof (candidates_after_mark_le max_depth ids l) as Hle.
  destruct Hin as [->|Hin].
  - rewrite Hid, Hel. cbn [eligible set_crawled]. cbn. lia.
  - specialize (IH Hin Hel Hid).
    destruct (eligible max_depth (if id_in ids h then set_crawled h else h))
      eqn:E.
    + apply eligible_after_mark in E as [-> _]. cbn [length]. lia.
    + destruct (eligible max_depth h); cbn [length]; lia.
Qed.

(** One call of [dequeueUrl], as the loops see it. *)
Lemma dequeueUrl_turn cfg (w : World Z) :
  exists v w',
    dequeueUrl cfg w = (Ret v, w')
    /\ Js.is_string v = false
    /\ (row_key (urlColumnName cfg) = false -> v = Js.JUndefined)
    /\ pages w' = pages w /\ done_calls w' = done_calls w
    /\ crawler_queue w' = crawler_queue w
    /\ (length (candidates cfg (queue w'))
        <= length (candidates cfg (queue w)))%nat
    /\ (v <> Js.JUndefined ->
        (length (candidates cfg (queue w'))
         < length (candidates cfg (queue w)))%nat).
Proof.
  pose proof (next_rows_spec (maxDepth cfg) (queue w)) as Hspec.
  pose proof (selected_ids (maxDepth cfg) 1 (queue w)) as Hids.
  rewrite p1_dequeueUrl_run. cbv zeta. unfold select_next_ids in *.
  destruct (next_rows (maxDepth cfg) 1 (queue w)) as [|r [|r' l]];
    [| |destruct Hspec]; cbn [map] in *.
  - eexists _, _. split; [reflexivity|]. cbn [pages queue done_calls
      crawler_queue]. repeat (split; [auto; lia|]). congruence.
  - destruct Hspec as (Hin & Hel & _).
    eexists _, _. split; [reflexivity|].
    cbn [pages queue done_calls crawler_queue first_row_get].
    split; [apply get_of_id_row_not_string|].
    split; [apply get_of_id_row_nothing|].
    repeat (split; [reflexivity|]).
    rewrite get_id_of_row. unfold mark_crawled_by_ids; cbn [rows].
    split; [apply candidates_after_mark_le|]. intros _.
    apply (candidates_after_mark_lt _ _ _ r Hin Hel).
    rewrite id_in_singleton. apply Z.eqb_refl.
Qed.

Lemma drain_run cfg fuel : forall url (w : World Z),
  Js.is_string url = false ->
  (url <> Js.JUndefined ->
   (length (candidates cfg (queue w)) < fuel)%nat) ->
  exists handed w',
    drain cfg fuel url w = (Ret true, w')
    /\ crawler_queue w' = crawler_queue w ++ handed
    /\ Forall (fun v => Js.is_string v = false) handed
    /\ (url = Js.JUndefined -> handed = [])
    /\ (row_key (urlColumnName cfg) = false -> length handed <= 1)%nat
    /\ pages w' = pages w /\ done_calls w' = done_calls w.
Proof.
  induction fuel as [|fuel IH]; intros url w Hs Hfuel.
  - destruct (decide (url = Js.JUndefined)) as [->|Hne].
    + exists [], w. cbn. rewrite app_nil_r. repeat split; auto.
    + specialize (Hfuel Hne). lia.
  - destruct (decide (url = Js.JUndefined)) as [->|Hne].
    { exists [], w. cbn. rewrite app_nil_r. repeat split; auto. }
    specialize (Hfuel Hne).
    assert (Hd : drain cfg (S fuel) url w
                 = (crawler_enqueue url ;;
                    next <- dequeueUrl cfg ;;
                    drain cfg fuel next) w)
      by (destruct url; try reflexivity; congruence).
    rewrite Hd. clear Hd.
    erewrite bind_ret_run by reflexivity.
    match goal with |- context [bind (dequeueUrl cfg) _ ?w0] =>
      destruct (dequeueUrl_turn cfg w0)
        as (v & w1 & Hrun & Hv & Hid & Hp & Hdc & Hcq & Hle & Hlt) end.
    cbn [pages queue done_calls crawler_queue] in *.
    erewrite bind_ret_run by exact Hrun.
    destruct (IH v w1 Hv) as (handed & w' & Hrun' & Hcq' & Hall & Hnil & Hone
                              & Hp' & Hdc').
    { intros Hv'. specialize (Hlt Hv'). lia. }
    exists (url :: handed), w'. split; [exact Hrun'|].
    split; [rewrite Hcq', Hcq, <- app_assoc; reflexivity|].
    split; [constructor; assumption|].
    split; [congruence|].
    split; [intros Hcol; rewrite (Hnil (Hid Hcol)); cbn; lia|].
    split; congruence.
Qed.

(** X10. [start] of part_001, run on its own (no callback adds a row
    meanwhile).  Its loop comes to its end after at most as many turns as
    the frontier has candidates: with fuel beyond the number of rows plus
    the seed, [start] returns, having neither raised nor touched the page
    store nor called [done()].  No value it hands to the crawler is a
    string.  And with a url column under whose name a row of the SELECT
    holds nothing (a name other than [id] and than the members every
    object inherits; the default, [url], is one) it hands nothing at all
    to the crawler, whatever the frontier holds: it seeds, marks the
    first candidate, and stops. *)
Theorem start_hands_over_no_url :
  (forall cfg fuel (w : World Z),
     (length (rows (queue w)) + 1 < fuel)%nat ->
     exists handed w',
       start cfg fuel w = (Ret true, w')
       /\ crawler_queue w' = crawler_queue w ++ handed
       /\ Forall (fun v => Js.is_string v = false) handed
       /\ pages w' = pages w /\ done_calls w' = done_calls w)
  /\ (forall cfg fuel (w : World Z),
        row_key (urlColumnName cfg) = false ->
        exists w',
          start cfg fuel w = (Ret true, w')
          /\ crawler_queue w' = crawler_queue w
          /\ pages w' = pages w /\ done_calls w' = done_calls w
          /\ queue w'
             = let seeded := insert_ignore_queue (targetUrl cfg) 0 (queue w) in
               mark_crawled_by_ids
                 (map (fun r => Js.JNum (q_id r))
                      (next_rows (maxDepth cfg) 1 seeded))
                 seeded).
Proof.
  assert (Hstart : forall cfg fuel (w : World Z),
            (row_key (urlColumnName cfg) = false
             \/ (length (rows (queue w)) + 1 < fuel)%nat) ->
            exists handed w',
              start cfg fuel w = (Ret true, w')
              /\ crawler_queue w' = crawler_queue w ++ handed
              /\ Forall (fun v => Js.is_string v = false) handed
              /\ (row_key (urlColumnName cfg) = false ->
                  handed = []
                  /\ queue w'
                     = mark_crawled_by_ids
                         (map (fun r => Js.JNum (q_id r))
                            (next_rows (maxDepth cfg) 1
                               (insert_ignore_queue (targetUrl cfg) 0
                                  (queue w))))
                         (insert_ignore_queue (targetUrl cfg) 0 (queue w)))
              /\ pages w' = pages w /\ done_calls w' = done_calls w).
  { intros cfg fuel w Hcase.
    assert (Hbody : forall w0 : World Z,
              length (rows (queue w0)) = length (rows (queue w)) ->
              exists handed w',
                (createTables cfg ;;
                 url <- dequeueUrl cfg ;;
                 drain cfg fuel url) w0 = (Ret true, w')
                /\ crawler_queue w' = crawler_queue w0 ++ handed
                /\ Forall (fun v => Js.is_string v = false) handed
                /\ (row_key (urlColumnName cfg) = false ->
                    handed = []
                    /\ queue w'
                       = mark_crawled_by_ids
                           (map (fun r => Js.JNum (q_id r))
                              (next_rows (maxDepth cfg) 1
                                 (insert_ignore_queue (targetUrl cfg) 0
                                    (queue w0))))
                           (insert_ignore_queue (targetUrl cfg) 0 (queue w0)))
                /\ pages w' = pages w0 /\ done_calls w' = done_calls w0).
    { intros w0 Hlen.
      destruct (p1_createTables_run cfg w0) as [lg Hct].
      erewrite bind_ret_run by exact Hct.
      match goal with |- context [bind (dequeueUrl cfg) _ ?w1] =>
        pose proof (Part001_dequeueUrl_queue cfg w1) as Hq;
        destruct (dequeueUrl_turn cfg w1)
          as (v & w2 & Hrun & Hv & Hid & Hp & Hdc & Hcq & Hle & Hlt);
        assert (Hrows : (length (candidates cfg (queue w1))
                         <= length (rows (queue w)) + 1)%nat)
      end.
      { cbn [queue]. etransitivity; [apply List.filter_length_le|].
        rewrite <- Hlen. unfold insert_ignore_queue, insert_queue.
        destruct (existsb _ _); cbn [rows]; [lia|].
        rewrite length_app. cbn. lia. }
      cbn [pages queue done_calls crawler_queue] in *.
      erewrite bind_ret_run by exact Hrun.
      rewrite Hrun in Hq. cbn [snd queue] in Hq.
      destruct (row_key (urlColumnName cfg)) eqn:Hidc;
        [|pose proof (eq_refl : false = false) as Hcol].
      2:{ rewrite (Hid Hcol).
          exists [], w2.
          split; [destruct fuel; reflexivity|].
          rewrite app_nil_r. repeat split; auto. }
      destruct Hcase as [Hcol|Hfuel]; [discriminate|].
      + destruct (drain_run cfg fuel v w2 Hv)
          as (handed & w' & Hrun' & Hcq' & Hall & Hnil & Hone & Hp' & Hdc').
        { intros Hv'. specialize (Hlt Hv'). lia. }
        exists handed, w'. split; [exact Hrun'|].
        split; [congruence|]. split; [exact Hall|].
        split; [intros Hcol; discriminate|].
        split; congruence. }
    destruct (Hbody (mkWorld (pages w) (queue w)
                       (log w ++ [LoggerInfo "Starting WebXenon..."])
                       (done_calls w) (crawler_queue w)) eq_refl)
      as (handed & w' & Hrun & Hcq & Hall & Hnil & Hp & Hdc).
    cbn [pages queue done_calls crawler_queue] in *.
    exists handed. eexists. split.
    - unfold start.
      erewrite bind_ret_run by reflexivity.
      erewrite bind_ret_run
        by (unfold try_catch; rewrite Hrun; reflexivity).
      cbv beta. erewrite bind_ret_run by reflexivity.
      reflexivity.
    - cbn [pages queue done_calls crawler_queue].
      repeat (split; [assumption|]). assumption. }
  split.
  - intros cfg fuel w Hfuel.
    destruct (Hstart cfg fuel w (or_intror Hfuel))
      as (handed & w' & Hrun & Hcq & Hall & _ & Hp & Hdc).
    exists handed, w'. auto.
  - intros cfg fuel w Hcol.
    destruct (Hstart cfg fuel w (or_introl Hcol))
      as (handed & w' & Hrun & Hcq & Hall & Hnil & Hp & Hdc).
    destruct (Hnil Hcol) as [-> Hq]. rewrite app_nil_r in Hcq.
    exists w'. cbv zeta. auto.
Qed.

Lemma start_hands_over_no_url_witness :
  exists w',
    start Sample.cfg1 0 SampleMore.crawling1 = (Ret true, w')
    /\ crawler_queue w' = []
    /\ pages w' = pages SampleMore.crawling1
    /\ done_calls w' = 0%nat
    /\ queue w'
       = mkTable [mkQueue 1 Sample.seed true 0;
                  mkQueue 2 "https://example.com/a" true 0;
                  mkQueue 3 "https://example.com/b" false 0] 4.
Proof.
  destruct (proj2 start_hands_over_no_url Sample.cfg1 0%nat
              SampleMore.crawling1) as (w' & Hrun & Hcq & Hp & Hdc & Hq).
  - reflexivity.
  - exists w'. split; [exact Hrun|]. split; [exact Hcq|].
    split; [exact Hp|]. split; [exact Hdc|]. rewrite Hq. reflexivity.
Defined.

Lemma dequeueUrls_loop_run cfg remaining : forall acc (w : World Z),
  exists got w',
    dequeueUrls_loop cfg remaining acc w = (Ret (acc ++ got), w')
    /\ (length got <= remaining)%nat
    /\ (length (candidates cfg (queue w')) + length got
        <= length (candidates cfg (queue w)))%nat
    /\ Forall (fun v => Js.is_string v = false /\ v <> Js.JUndefined) got
    /\ (row_key (urlColumnName cfg) = false -> got = [])
    /\ pages w' = pages w /\ done_calls w' = done_calls w
    /\ crawler_queue w' = crawler_queue w.
Proof.
  induction remaining as [|remaining IH]; intros acc w.
  - exists [], w. cbn [dequeueUrls_loop]. rewrite app_nil_r.
    repeat split; auto; cbn; lia.
  - cbn [dequeueUrls_loop].
    destruct (dequeueUrl_turn cfg w)
      as (v & w1 & Hrun & Hv & Hid & Hp & Hdc & Hcq & Hle & Hlt).
    erewrite bind_ret_run by exact Hrun.
    destruct (decide (v = Js.JUndefined)) as [->|Hne].
    + exists [], w1. rewrite app_nil_r.
      repeat split; auto; cbn; lia.
    + specialize (Hlt Hne).
      destruct (IH (acc ++ [v]) w1)
        as (got & w' & Hrun' & Hlen & Hcand & Hall & Hnil & Hp' & Hdc' & Hcq').
      exists (v :: got), w'.
      split.
      { destruct v; try congruence; rewrite Hrun', <- app_assoc;
          reflexivity. }
      split; [cbn; lia|]. split; [cbn; lia|].
      split; [constructor; auto|].
      split; [intros Hcol; elim Hne; auto|].
      repeat split; congruence.
Qed.

(** X11. [dequeueUrls(count)] of part_001, for a natural number [count],
    returns at most [count] values, and no more than the frontier has
    candidates; each is a row it has marked crawled, so that many
    candidates are gone.  None of the values is a string, and with a url
    column under whose name a row of the SELECT holds nothing (neither
    [id] nor a member every object inherits) the list is empty, although
    with [count] at least 1 the first candidate has been marked as by
    one [dequeueUrl].  With [count] 0 nothing happens.  The page store,
    the [done()] count and the crawler are never touched. *)
Theorem dequeueUrls_bounded :
  (forall cfg count (w : World Z),
     exists urls w',
       dequeueUrls cfg count w = (Ret urls, w')
       /\ (length urls <= count)%nat
       /\ (length (candidates cfg (queue w')) + length urls
           <= length (candidates cfg (queue w)))%nat
       /\ Forall (fun v => Js.is_string v = false) urls
       /\ pages w' = pages w /\ done_calls w' = done_calls w
       /\ crawler_queue w' = crawler_queue w)
  /\ (forall cfg count (w : World Z),
        row_key (urlColumnName cfg) = false ->
        dequeueUrls cfg (S count) w
        = (Ret [], snd (dequeueUrl cfg w)))
  /\ (forall cfg (w : World Z), dequeueUrls cfg 0 w = (Ret [], w)).
Proof.
  split; [|split].
  - intros cfg count w. unfold dequeueUrls.
    destruct (dequeueUrls_loop_run cfg count [] w)
      as (got & w' & Hrun & Hlen & Hcand & Hall & _ & Hp & Hdc & Hcq).
    exists got, w'. split; [exact Hrun|].
    split; [exact Hlen|]. split; [exact Hcand|].
    split; [|auto].
    eapply Forall_impl; [exact Hall|]. cbn beta. now intros v [Hv _].
  - intros cfg count w Hcol. unfold dequeueUrls. cbn [dequeueUrls_loop].
    destruct (dequeueUrl_turn cfg w)
      as (v & w1 & Hrun & _ & Hid & _).
    erewrite bind_ret_run by exact Hrun.
    rewrite Hrun, (Hid Hcol). reflexivity.
  - reflexivity.
Qed.

Lemma dequeueUrls_bounded_witness :
  dequeueUrls Sample.cfg1 2 SampleMore.crawling1
  = (Ret [], snd (dequeueUrl Sample.cfg1 SampleMore.crawling1)).
Proof.
  apply (proj1 (proj2 dequeueUrls_bounded) Sample.cfg1 1%nat
           SampleMore.crawling1).
  reflexivity.
Defined.
End DequeueLoops.

(** ** Configuration and shutdown *)

Section Configuration.
Import Async Sql SqlFacts.




Lemma fire_without_listeners event st :
  Shutdown.listeners st = [] -> Shutdown.fire event st = st.
Proof. unfold Shutdown.fire. now intros ->. Qed.

(** X13. [stop()] of part_001 and part_002 registers the handler that
    ends the pool and then removes every listener of the crawler, that
    handler included: after [stop()] the crawler has no listener left,
    and whatever events it emits from then on, the pool is as it was (if
    it was open it stays open) and [Crawler has stopped.] is never
    logged.  Had the handler stayed, the first [drain] would have ended
    the pool. *)
Theorem stop_never_ends_pool :
  (forall st events,
     let st' := fold_left (fun s event => Shutdown.fire event s) events
                  (Shutdown.stop st) in
     Shutdown.listeners (Shutdown.stop st) = []
     /\ Shutdown.pool_ended st' = Shutdown.pool_ended st
     /\ Shutdown.stop_log st'
        = Shutdown.stop_log st ++ [LoggerInfo "Crawler is stopping..."])
  /\ (forall st,
        Shutdown.pool_ended
          (Shutdown.fire "drain"
             (Shutdown.on "drain" Shutdown.EndPoolOnDrain st)) = true).
Proof.
  split.
  - intros st events. cbv zeta.
    assert (Hfix : fold_left (fun s event => Shutdown.fire event s) events
                     (Shutdown.stop st) = Shutdown.stop st).
    { induction events as [|e events IH]; [reflexivity|].
      cbn [fold_left]. now rewrite fire_without_listeners. }
    rewrite Hfix. repeat split.
  - intros st. unfold Shutdown.fire, Shutdown.on.
    cbn [Shutdown.listeners]. rewrite fold_left_app. cbn [fold_left fst snd].
    change (String.eqb "drain" "drain") with true. cbv iota.
    reflexivity.
Qed.
End Configuration.

(** ** The keys of the two tables *)

Section Keys.
Import Async Sql SqlFacts.

Lemma world_wf_queue {X : Type} (w : World X)
    (t : Table (QueueRow X)) lg dc cq :
  world_wf w -> queue_wf t -> world_wf (mkWorld (pages w) t lg dc cq).
Proof. intros [_ Hp] Hq. now split. Qed.

Lemma p1_dequeueUrl_wf cfg (w : World Z) :
  world_wf w ->
  exists v w', Part001.dequeueUrl cfg w = (Ret v, w') /\ world_wf w'.
Proof.
  intros Hwf. rewrite p1_dequeueUrl_run. cbv zeta.
  destruct (Part001.select_next_ids (Part001.maxDepth cfg) 1 (queue w));
    eexists _, _; (split; [reflexivity|]); apply world_wf_queue;
    try exact Hwf; try apply Hwf.
  apply queue_wf_mark, Hwf.
Qed.

Lemma p1_drain_wf cfg fuel : forall url (w : World Z),
  world_wf w ->
  exists b w', Part001.drain cfg fuel url w = (Ret b, w') /\ world_wf w'.
Proof.
  induction fuel as [|fuel IH]; intros url w Hwf.
  - destruct url; eexists _, _; (split; [reflexivity | exact Hwf]).
  - destruct (decide (url = Js.JUndefined)) as [->|Hne].
    { eexists _, _; (split; [reflexivity | exact Hwf]). }
    assert (Hd : Part001.drain cfg (S fuel) url w
                 = (crawler_enqueue url ;;
                    next <- Part001.dequeueUrl cfg ;;
                    Part001.drain cfg fuel next) w)
      by (destruct url; try reflexivity; congruence).
    rewrite Hd. erewrite bind_ret_run by reflexivity.
    match goal with |- context [bind (Part001.dequeueUrl cfg) _ ?w0] =>
      destruct (p1_dequeueUrl_wf cfg w0) as (v & w1 & Hrun & Hwf1) end.
    { apply world_wf_queue; [exact Hwf | apply Hwf]. }
    erewrite bind_ret_run by exact Hrun. now apply IH.
Qed.

Lemma p1_dequeueUrls_loop_wf cfg remaining : forall acc (w : World Z),
  world_wf w ->
  world_wf (snd (Part001.dequeueUrls_loop cfg remaining acc w)).
Proof.
  induction remaining as [|remaining IH]; intros acc w Hwf; [exact Hwf|].
  cbn [Part001.dequeueUrls_loop].
  destruct (p1_dequeueUrl_wf cfg w Hwf) as (v & w1 & Hrun & Hwf1).
  erewrite bind_ret_run by exact Hrun.
  destruct v; first [exact Hwf1 | now apply IH].
Qed.

(** X14. The keys hold throughout.  If the frontier respects its UNIQUE
    KEY on url, its PRIMARY KEY and its counter, and the page store its
    UNIQUE KEY on url, then so they do after every operation of the three
    revisions, however it ends: seeding, enqueueing, the claim step and
    its loops, [start], and the callbacks with or without fetch error
    (in src/WebCrawler.ts also with a [uri] that is not a string,
    whatever the driver makes of it; its [start] for a target that the
    quoted literal denotes).  Empty tables respect their keys, so a crawl
    that starts from them never holds two rows for one url. *)
Theorem unique_keys_preserved :
  (forall cfg urls count fuel error res (w : World Z),
     world_wf w ->
     world_wf (snd (Part001.createTables cfg w))
     /\ world_wf (snd (Part001.queueUrls urls w))
     /\ world_wf (snd (Part001.dequeueUrl cfg w))
     /\ world_wf (snd (Part001.dequeueUrls cfg count w))
     /\ world_wf (snd (Part001.start cfg fuel w))
     /\ world_wf (snd (Part001.processPage cfg error res w)))
  /\ (forall cfg urls error res (w : World unit),
        world_wf w ->
        world_wf (snd (Part002.queueUrls urls w))
        /\ world_wf (snd (Part002.start cfg w))
        /\ world_wf (snd (Part002.processPage cfg error res w)))
  /\ (forall driver cfg u error res (w : World unit),
        world_wf w ->
        (WebCrawler.sql_plain (WebCrawler.targetUrl cfg) = true ->
         world_wf (snd (WebCrawler.start cfg w)))
        /\ world_wf (snd (WebCrawler.getNextUrl cfg w))
        /\ world_wf (snd (WebCrawler.markUrlAsCrawled u w))
        /\ world_wf (snd (WebCrawler.crawl driver cfg error res w)))
  /\ (forall X : Type, world_wf (mkWorld empty (@empty (QueueRow X)) [] 0 [])).
Proof.
  assert (Hct : forall cfg (w : World Z),
            world_wf w -> world_wf (snd (Part001.createTables cfg w))).
  { intros cfg w Hwf. destruct (p1_createTables_run cfg w) as [lg ->].
    cbn [snd]. apply world_wf_queue; [exact Hwf|].
    apply queue_wf_insert_ignore, Hwf. }
  assert (Hnext : forall cfg (w : World unit),
            world_wf w -> world_wf (wc_next cfg w)).
  { intros cfg w Hwf. unfold world_wf.
    now rewrite queue_wc_next, pages_wc_next. }
  split; [|split; [|split]].
  - intros cfg urls count fuel error res w Hwf.
    split; [now apply Hct|].
    split.
    { destruct (p1_queueUrls_run urls w) as [lg ->]. cbn [snd].
      apply world_wf_queue; [exact Hwf|].
      apply queue_wf_insert_ignore_all, Hwf. }
    split.
    { destruct (p1_dequeueUrl_wf cfg w Hwf) as (v & w' & -> & Hwf').
      exact Hwf'. }
    split; [now apply p1_dequeueUrls_loop_wf|].
    split.
    { unfold Part001.start. erewrite bind_ret_run by reflexivity.
      match goal with |- context [try_catch ?m ?h] =>
        assert (Hbody : forall w0 : World Z,
                  world_wf w0 ->
                  exists b w', m w0 = (Ret b, w') /\ world_wf w') end.
      { intros w0 Hwf0. specialize (Hct cfg w0 Hwf0).
        destruct (p1_createTables_run cfg w0) as [lg Hrun].
        rewrite Hrun in Hct. cbn [snd] in Hct.
        erewrite bind_ret_run by exact Hrun.
        destruct (p1_dequeueUrl_wf cfg _ Hct) as (v & w1 & Hrun1 & Hwf1).
        erewrite bind_ret_run by exact Hrun1.
        apply p1_drain_wf, Hwf1. }
      match goal with |- context [bind _ _ ?w0] =>
        destruct (Hbody w0) as (b & w' & Hrun & Hwf') end.
      { apply world_wf_queue; [exact Hwf | apply Hwf]. }
      erewrite bind_ret_run
        by (unfold try_catch; rewrite Hrun; reflexivity).
      cbv beta. erewrite bind_ret_run by reflexivity. cbn [snd ret].
      apply world_wf_queue; [exact Hwf' | apply Hwf']. }
    destruct error as [e|].
    + rewrite p1_processPage_error. cbn [snd].
      apply world_wf_queue; [exact Hwf | apply Hwf].
    + destruct (p1_processPage_run cfg res w) as [lg ->]. cbn [snd].
      split; cbn [queue pages].
      * unfold p1_queue_after.
        destruct (_ <? _); [apply queue_wf_insert_ignore_all|];
          apply queue_wf_mark, Hwf.
      * apply page_wf_upsert, Hwf.
  - intros cfg urls error res w Hwf.
    assert (Hq : world_wf (snd (Part002.queueUrls urls w))).
    { rewrite p2_queueUrls_run. cbn [snd]. unfold with_queue.
      apply world_wf_queue; [exact Hwf|].
      apply queue_wf_insert_ignore_all, Hwf. }
    split; [exact Hq|]. split.
    { rewrite p2_start_run.
      cbn [snd]. unfold with_queue.
      apply world_wf_queue; [exact Hwf|].
      apply queue_wf_insert_ignore_all, Hwf. }
    destruct error as [e|].
    + rewrite p2_processPage_error. cbn [snd].
      apply world_wf_queue; [exact Hwf | apply Hwf].
    + rewrite p2_processPage_run. cbn [snd].
      split; cbn [queue pages].
      * unfold p2_queue_after.
        destruct (_ <? _); [apply queue_wf_insert_ignore_all|];
          apply queue_wf_mark, Hwf.
      * apply page_wf_upsert, Hwf.
  - intros driver cfg u error res w Hwf.
    assert (Henq : queue_wf (wc_queue_enqueued cfg res (queue w))).
    { unfold wc_queue_enqueued.
      destruct (_ <? _); [apply queue_wf_insert_ignore_all|]; apply Hwf. }
    split.
    { intros _.
      rewrite wc_start_run.
      cbn [snd]. unfold with_queue.
      apply world_wf_queue; [exact Hwf|].
      apply queue_wf_insert_ignore_all, Hwf. }
    split; [now rewrite wc_getNextUrl_reads_only|].
    split.
    { cbn. apply world_wf_queue; [exact Hwf|]. apply queue_wf_mark, Hwf. }
    destruct error as [e|].
    + rewrite wc_crawl_error. cbn [snd]. apply Hnext.
      apply world_wf_queue; [exact Hwf | apply Hwf].
    + destruct (Js.is_string (WebCrawler.uri res)) eqn:Hs.
      * destruct (WebCrawler.uri res) as [| | | |s|] eqn:Hu;
          try discriminate.
        rewrite (wc_crawl_run_string driver cfg res s w Hu). cbn [snd].
        apply Hnext. split; cbn [queue pages].
        -- apply queue_wf_mark, Henq.
        -- apply page_wf_upsert, Hwf.
      * rewrite wc_crawl_run_other by exact Hs.
        destruct (WebCrawler.bind_url driver (WebCrawler.uri res)) as [key|err]; cbn [snd].
        -- split; cbn [queue pages];
             [exact Henq | apply page_wf_upsert, Hwf].
        -- apply world_wf_queue; [exact Hwf | apply Hwf].
  - intros X. split; [apply queue_wf_empty | constructor].
Qed.

Lemma unique_keys_preserved_witness :
  world_wf (snd (Part002.processPage Sample.cfg2 None Sample.page2
                   (snd (Part002.start Sample.cfg2
                           (mkWorld empty empty [] 0 []))))).
Proof.
  apply (proj1 (proj2 unique_keys_preserved) Sample.cfg2 [] None
           Sample.page2).
  apply (proj1 (proj2 unique_keys_preserved) Sample.cfg2 [] None
           Sample.page2).
  apply (proj2 (proj2 (proj2 unique_keys_preserved)) unit).
Defined.
End Keys.
